(** * culture-coach: sample codec, playback scheduler, assessment store

    A shallow embedding of the live voice coach
    ([utils/audioUtils.ts], [types.ts] and the [LiveVoiceCoach] component)
    together with the properties its design document states about them.

    Conventions of the embedding.
    - A [Uint8Array] is a [list Byte.byte]; an [Int16Array] is a list of
      integers in the signed 16-bit range, produced by [ToInt16].
    - Floating-point samples and output-clock times are rationals.  Every
      sample the codec touches is a multiple of 2^-15 of magnitude at most 1,
      which binary floating point represents and multiplies exactly, so the
      rational arithmetic below is the arithmetic of the code.
    - [Date.now()] is an integer number of milliseconds.
    - Values obtained from [JSON.parse] are terms of [json]; a JS object is
      the finite map of its own properties, an absent property is [None]
      (JS [undefined]).  Inherited properties and the special property
      name [__proto__] are not modelled.
    - The browser is present only through what the handlers ask of it:
      the output clock, the sources handed to it, its [onended] and timer
      callbacks.  Its allocations are taken to succeed. *)

From Stdlib Require Import QArith Qminmax Qround Qabs ZArith Lia Lqa ZifyNat.
From stdpp Require Import gmap strings list fin_maps pretty.

#[local] Set Warnings "-register-all,-clear-no-such-hyp".
#[local] Open Scope Z_scope.

(* ===================================================================== *)
(** * JS values                                                          *)
(* ===================================================================== *)

Module Js.

(** What [JSON.parse] can return. *)
Inductive json : Type :=
  | JNull
  | JBool (b : bool)
  | JNum (q : Q)
  | JStr (s : string)
  | JArr (items : list json)
  | JObj (fields : gmap string json).

(** [ToBoolean]: [null], [false], [0] and the empty string are falsy;
    arrays and objects, also empty ones, are truthy. *)
Definition truthy (v : json) : bool :=
  match v with
  | JNull => false
  | JBool b => b
  | JNum q => negb (Qnum q =? 0)
  | JStr s => negb (String.eqb s EmptyString)
  | JArr _ => true
  | JObj _ => true
  end.

(** Truthiness of a property read: [undefined] is falsy. *)
Definition truthy_opt (o : option json) : bool :=
  match o with Some v => truthy v | None => false end.

(** [a || b] on property reads. *)
Definition js_or (a b : option json) : option json :=
  if truthy_opt a then a else b.

(** [a ?? b]: [b] when [a] is [undefined] or [null]. *)
Definition nullish (a : option json) (b : json) : json :=
  match a with
  | None | Some JNull => b
  | Some v => v
  end.

(** [v === 'lit']. *)
Definition strict_eq_str (v : option json) (lit : string) : bool :=
  match v with
  | Some (JStr s) => String.eqb s lit
  | _ => false
  end.

(** The elements of an array or string as properties named by their
    decimal index. *)
Definition indexed {A} (l : list A) : gmap string A :=
  list_to_map (imap (λ i x, (pretty i, x)) l).

(** The own enumerable string-keyed properties of a value: what the
    spread [{...v}] copies and [Object.keys(v)] enumerates.  Arrays and
    strings expose their indices; numbers, booleans and [null] nothing.
    (One character of a Rocq string stands for one code unit.) *)
Definition own_props (v : json) : gmap string json :=
  match v with
  | JObj fields => fields
  | JArr items => indexed items
  | JStr s => indexed ((λ c, JStr (String c EmptyString)) <$> String.list_ascii_of_string s)
  | JNull | JBool _ | JNum _ => ∅
  end.

(** [{...o}] where [o] may be [undefined]. *)
Definition spread (o : option json) : gmap string json :=
  match o with Some v => own_props v | None => ∅ end.

End Js.

(* ===================================================================== *)
(** * utils/audioUtils.ts                                                *)
(* ===================================================================== *)

Module AudioUtils.

Definition byte_val (b : Byte.byte) : Z := Z.of_N (Byte.to_N b).

Definition byte_of_Z (z : Z) : Byte.byte :=
  default Byte.x00 (Byte.of_N (Z.to_N (z mod 256))).

(** ECMAScript [ToInt16], the conversion applied by a store into an
    [Int16Array]: truncate toward zero, reduce modulo 2^16, read as
    two's complement. *)
Definition Qtrunc (q : Q) : Z :=
  if Qle_bool 0 q then Qfloor q else Qceiling q.

Definition wrap16 (z : Z) : Z :=
  let m := z mod 65536 in
  if 32768 <=? m then m - 65536 else m.

Definition ToInt16 (q : Q) : Z := wrap16 (Qtrunc q).

(** [dataView.getInt16(offset, true)]: the little-endian signed 16-bit
    value at [offset]; [None] stands for the [RangeError] raised when the
    two bytes are not both inside the view. *)
Definition getInt16 (data : list Byte.byte) (offset : nat) : option Z :=
  lo ← data !! offset;
  hi ← data !! S offset;
  Some (wrap16 (Z.lor (byte_val lo) (Z.shiftl (byte_val hi) 8))).

(** An [AudioBuffer]: one list of samples per channel. *)
Record AudioBuffer := mkAudioBuffer {
  sampleRate : Z;
  frameLength : nat;
  channels : list (list Q);
}.

(** [buffer.duration], in seconds. *)
Definition duration (b : AudioBuffer) : Q :=
  (inject_Z (Z.of_nat (frameLength b)) / inject_Z (sampleRate b))%Q.

Definition getChannelData (b : AudioBuffer) (channel : nat) : list Q :=
  default [] (channels b !! channel).

(** [decodeAudioData(data, ctx, sampleRate, numChannels)].
    [frameCount] is the floor of [byteLength / (numChannels * 2)]; each
    channel reads its interleaved samples and divides them by 32768.
    The host's [createBuffer] is taken to allocate the buffer asked for;
    [numChannels] is at least 1 at every call (the handler passes 1). *)
Definition decodeAudioData (data : list Byte.byte) (rate : Z) (numChannels : nat)
    : option AudioBuffer :=
  let frameCount := (length data / (numChannels * 2))%nat in
  chans ← mapM (λ channel,
                  mapM (λ i, int16 ← getInt16 data ((i * numChannels + channel) * 2);
                             Some (inject_Z int16 / 32768)%Q)
                       (seq 0 frameCount))
               (seq 0 numChannels);
  Some (mkAudioBuffer rate frameCount chans).

Definition Qltb (x y : Q) : bool := negb (Qle_bool y x).

(** [float32ToInt16(float32Data)]. *)
Definition float32ToInt16 (float32Data : list Q) : list Z :=
  (λ x, let s := Qmax (-1) (Qmin 1 x) in
        ToInt16 (if Qltb s 0 then s * 32768 else s * 32767)%Q) <$> float32Data.

(** [new Uint8Array(int16Data.buffer)]: the samples' bytes, low byte
    first (the byte order of every platform the browser runs on). *)
Definition int16_bytes (int16Data : list Z) : list Byte.byte :=
  int16Data ≫= (λ v, let u := v mod 65536 in
                     [byte_of_Z (Z.land u 255); byte_of_Z (Z.shiftr u 8)]).

(** The [i]-th 16-bit sample of a byte buffer (0 past its end). *)
Definition int16_at (data : list Byte.byte) (i : nat) : Z :=
  default 0 (getInt16 data (i * 2)).

(** The path of the round-trip property: bytes to float samples (mono),
    back to 16-bit integers, back to bytes. *)
Definition roundtrip (b : list Byte.byte) : option (list Byte.byte) :=
  buf ← decodeAudioData b 24000 1;
  Some (int16_bytes (float32ToInt16 (getChannelData buf 0))).

(** ** The text framing: [encodeBase64] and [decodeBase64]

    A binary string, the argument of [btoa] and the result of [atob], is
    the list of its code units, all below 256.  The two host functions
    are written out from their definition: [btoa] is base64 with padding,
    [atob] the forgiving decode (ASCII whitespace is dropped, padding is
    optional, a remainder of one character or a character outside the
    alphabet is an [InvalidCharacterError], here [None]). *)

Definition b64_alphabet : list Ascii.ascii :=
  String.list_ascii_of_string
    "ABCDEFGHIJKLMNOPQRSTUVWXYZabcdefghijklmnopqrstuvwxyz0123456789+/".

Definition b64_pad : Ascii.ascii := Ascii.ascii_of_nat 61.

Definition b64_char (n : nat) : Ascii.ascii := default b64_pad (b64_alphabet !! n).

Fixpoint b64_find (c : Ascii.ascii) (alphabet : list Ascii.ascii) (n : nat)
    : option nat :=
  match alphabet with
  | [] => None
  | a :: rest => if Ascii.eqb a c then Some n else b64_find c rest (S n)
  end.

Definition b64_value (c : Ascii.ascii) : option nat := b64_find c b64_alphabet 0.

Fixpoint btoa (binary : list Ascii.ascii) : list Ascii.ascii :=
  match binary with
  | [] => []
  | a :: rest1 =>
      let x := Ascii.nat_of_ascii a in
      match rest1 with
      | [] => [b64_char (x / 4); b64_char (x mod 4 * 16); b64_pad; b64_pad]
      | b :: rest2 =>
          let y := Ascii.nat_of_ascii b in
          match rest2 with
          | [] => [b64_char (x / 4); b64_char (x mod 4 * 16 + y / 16);
                   b64_char (y mod 16 * 4); b64_pad]
          | c :: rest3 =>
              let z := Ascii.nat_of_ascii c in
              b64_char (x / 4) :: b64_char (x mod 4 * 16 + y / 16)
                :: b64_char (y mod 16 * 4 + z / 64) :: b64_char (z mod 64)
                :: btoa rest3
          end
      end
  end%nat.

Definition is_ascii_whitespace (c : Ascii.ascii) : bool :=
  let n := Ascii.nat_of_ascii c in
  ((n =? 9) || (n =? 10) || (n =? 12) || (n =? 13) || (n =? 32))%nat.

Definition is_pad (c : Ascii.ascii) : bool := Ascii.eqb c b64_pad.

(** One or two padding characters at the end are removed. *)
Fixpoint strip_padding (data : list Ascii.ascii) : list Ascii.ascii :=
  match data with
  | [] => []
  | a :: rest =>
      match rest with
      | [] => if is_pad a then [] else [a]
      | [b] => if is_pad b then (if is_pad a then [] else [a]) else [a; b]
      | _ => a :: strip_padding rest
      end
  end.

(** Four sextets give three bytes; two or three left over give one or
    two, the spare bits being dropped. *)
Fixpoint b64_bytes (sextets : list nat) : list Ascii.ascii :=
  match sextets with
  | s1 :: s2 :: rest2 =>
      let first := Ascii.ascii_of_nat (s1 * 4 + s2 / 16) in
      match rest2 with
      | [] => [first]
      | s3 :: rest3 =>
          let second := Ascii.ascii_of_nat (s2 mod 16 * 16 + s3 / 4) in
          match rest3 with
          | [] => [first; second]
          | s4 :: rest4 =>
              first :: second :: Ascii.ascii_of_nat (s3 mod 4 * 64 + s4)
                :: b64_bytes rest4
          end
      end
  | _ => []
  end%nat.

Definition atob (data : list Ascii.ascii) : option (list Ascii.ascii) :=
  let data := filter (λ c, is_ascii_whitespace c = false) data in
  let data := if (length data mod 4 =? 0)%nat then strip_padding data else data in
  if (length data mod 4 =? 1)%nat then None
  else sextets ← mapM b64_value data; Some (b64_bytes sextets).

(** [decodeBase64(base64)]: [atob], then one byte per code unit. *)
Definition decodeBase64 (base64 : list Ascii.ascii) : option (list Byte.byte) :=
  match atob base64 with
  | Some binaryString => Some (Ascii.byte_of_ascii <$> binaryString)
  | None => None
  end.

(** [encodeBase64(bytes)]: one code unit per byte, then [btoa]. *)
Definition encodeBase64 (bytes : list Byte.byte) : list Ascii.ascii :=
  btoa (Ascii.ascii_of_byte <$> bytes).

End AudioUtils.

(* ===================================================================== *)
(** * types.ts                                                           *)
(* ===================================================================== *)

Module Types.
Import Js.

Inductive ConnectionState :=
  | DISCONNECTED | CONNECTING | CONNECTED | ERROR | COMPLETE.

Record ScorePoint := mkScorePoint {
  time : Z;
  DT : json;
  TR : json;
  CO : json;
  CA : json;
  EP : json;
}.

(** The record is typed in the source, but its contents come from
    [JSON.parse]: a dimension is an object (property name to value), the
    logs hold whatever the patch carried. *)
Record SessionState := mkSessionState {
  dimensions : gmap string (gmap string json);
  scoreHistory : list ScorePoint;
  evidenceLog : list json;
  contradictions : list json;
  conversationPhase : json;
  strengths : json;
  developmentPriorities : json;
  summary : option json;
  fullReport : option json;
}.

Definition initial_dimension : gmap string json :=
  {[ "score" := JNum 3; "confidence" := JStr "LOW";
     "evidenceCount" := JNum 0; "trend" := JStr "stable" ]}.

Definition INITIAL_SESSION_STATE : SessionState := {|
  dimensions := {[ "DT" := initial_dimension; "TR" := initial_dimension;
                   "CO" := initial_dimension; "CA" := initial_dimension;
                   "EP" := initial_dimension ]};
  scoreHistory := [mkScorePoint 0 (JNum 3) (JNum 3) (JNum 3) (JNum 3) (JNum 3)];
  evidenceLog := [];
  contradictions := [];
  conversationPhase := JStr "OPENING";
  strengths := JArr [];
  developmentPriorities := JArr [];
  summary := None;
  fullReport := None;
|}.

End Types.

(* ===================================================================== *)
(** * The LiveVoiceCoach component                                       *)
(* ===================================================================== *)

Module LiveVoiceCoach.
Import Js Types AudioUtils.

(** ** Assessment store: the updater passed to [setSessionState] when an
    [updateAssessmentState] call arrives. *)

(** [Object.keys(v)]; the order of enumeration is not observable in the
    loop below, which touches each key once. *)
Definition Object_keys (v : json) : list string :=
  (map_to_list (own_props v)).*1.

(** The [forEach] over [Object.keys(args.dimensions)]: a truthy entry is
    spread over the stored dimension of the same key. *)
Definition merge_dimension (patch : json)
    (newDimensions : gmap string (gmap string json)) (key : string)
    : gmap string (gmap string json) :=
  if truthy_opt (own_props patch !! key)
  then <[ key := spread (own_props patch !! key) ∪ default ∅ (newDimensions !! key) ]>
         newDimensions
  else newDimensions.

Definition merge_dimensions (prev : gmap string (gmap string json))
    (args_dimensions : option json) : gmap string (gmap string json) :=
  match args_dimensions with
  | Some patch =>
      if truthy patch
      then foldl (merge_dimension patch) prev (Object_keys patch)
      else prev
  | None => prev
  end.

(** The entry of a patch that the merge acts on for dimension [key]:
    [args.dimensions[key]], when it and [args.dimensions] are both truthy
    (the two guards around the spread). *)
Definition patch_dimension (args : gmap string json) (key : string)
    : option json :=
  d ← args !! "dimensions";
  if truthy d
  then e ← own_props d !! key; if truthy e then Some e else None
  else None.

(** [newDimensions.K?.score ?? 0]. *)
Definition score_of (newDimensions : gmap string (gmap string json))
    (key : string) : json :=
  nullish (d ← newDimensions !! key; d !! "score") (JNum 0).

(** [a || b] where [b] is always defined. *)
Definition or_prev (a : option json) (b : json) : json :=
  default b (js_or a (Some b)).

Definition push_if_truthy (log : list json) (item : option json) : list json :=
  match item with
  | Some v => if truthy v then log ++ [v] else log
  | None => log
  end.

(** The updater.  [now] is [Date.now()] when it runs, [sessionStartTime]
    the content of [sessionStartTimeRef]; [args] is the parsed argument
    object of the call. *)
Definition updateAssessmentState (now sessionStartTime : Z)
    (args : gmap string json) (prev : SessionState) : SessionState :=
  let newLog := push_if_truthy (evidenceLog prev) (args !! "newEvidence") in
  let newContradictions :=
    push_if_truthy (contradictions prev) (args !! "contradiction") in
  let newDimensions := merge_dimensions (dimensions prev) (args !! "dimensions") in
  let elapsed := (now - sessionStartTime) / 1000 in
  let newPoint := {|
    time := elapsed;
    DT := score_of newDimensions "DT";
    TR := score_of newDimensions "TR";
    CO := score_of newDimensions "CO";
    CA := score_of newDimensions "CA";
    EP := score_of newDimensions "EP" |} in
  let newHistory := scoreHistory prev ++ [newPoint] in
  {| dimensions := newDimensions;
     scoreHistory := newHistory;
     evidenceLog := newLog;
     contradictions := newContradictions;
     conversationPhase := or_prev (args !! "phase") (conversationPhase prev);
     strengths := or_prev (args !! "strengths") (strengths prev);
     developmentPriorities :=
       or_prev (args !! "developmentPriorities") (developmentPriorities prev);
     summary := js_or (args !! "summary") (summary prev);
     fullReport := fullReport prev |}.

(** Patches arrive one message at a time, each with its own clock
    reading. *)
Definition apply_patches (sessionStartTime : Z)
    (patches : list (Z * gmap string json)) (st : SessionState) : SessionState :=
  foldl (λ s p, updateAssessmentState p.1 sessionStartTime p.2 s) st patches.

(** ** Session monitor: the body of the one-second interval. *)

Record Ui := mkUi {
  connectionState : ConnectionState;
  isPaused : bool;
  showEmailModal : bool;
  errorMsg : option string;
  showEarlyExitButton : bool;
  sessionState : SessionState;
}.

Definition is_connected (c : ConnectionState) : bool :=
  match c with CONNECTED => true | _ => false end.

(** [handleDisconnectBtn]: pause if running, open the e-mail dialog. *)
Definition handleDisconnectBtn (ui : Ui) : Ui :=
  {| connectionState := connectionState ui;
     isPaused := if isPaused ui then isPaused ui else negb (isPaused ui);
     showEmailModal := true;
     errorMsg := errorMsg ui;
     showEarlyExitButton := showEarlyExitButton ui;
     sessionState := sessionState ui |}.

Definition setErrorMsg (msg : string) (ui : Ui) : Ui :=
  {| connectionState := connectionState ui;
     isPaused := isPaused ui;
     showEmailModal := showEmailModal ui;
     errorMsg := Some msg;
     showEarlyExitButton := showEarlyExitButton ui;
     sessionState := sessionState ui |}.

Definition setShowEarlyExitButton (b : bool) (ui : Ui) : Ui :=
  {| connectionState := connectionState ui;
     isPaused := isPaused ui;
     showEmailModal := showEmailModal ui;
     errorMsg := errorMsg ui;
     showEarlyExitButton := b;
     sessionState := sessionState ui |}.

(** [Object.values(dims).every(d => d.confidence === 'high')], guarded by
    [Object.keys(dims).length >= 5]. *)
Definition allHigh (dims : gmap string (gmap string json)) : bool :=
  (5 <=? size dims)%nat
  && forallb (λ d : gmap string json, strict_eq_str (d !! "confidence") "high")
             (map_to_list dims).*2.

(** One firing of the interval; it exists only while the connection is
    up and the session is not paused. *)
Definition monitor_tick (now sessionStartTime : Z) (ui : Ui) : Ui :=
  if is_connected (connectionState ui) && negb (isPaused ui) then
    let elapsedMs := now - sessionStartTime in
    let elapsedMinutes := (inject_Z elapsedMs / 60000)%Q in
    if Qle_bool 20 elapsedMinutes then
      setErrorMsg "Maximum session time reached (20 mins). Please finalize your report."
                  (handleDisconnectBtn ui)
    else if Qle_bool 5 elapsedMinutes then
      if allHigh (dimensions (sessionState ui))
      then setShowEarlyExitButton true ui
      else ui
    else ui
  else ui.

(** ['response.function_call_arguments.done'] for [updateAssessmentState],
    once the arguments have been parsed: the store is updated, and a
    truthy [isComplete] ends the session (the socket is closed; its
    [onclose] keeps [COMPLETE]). *)
Definition on_update_assessment (now sessionStartTime : Z)
    (args : gmap string json) (ui : Ui) : Ui :=
  {| connectionState :=
       if truthy_opt (args !! "isComplete") then COMPLETE else connectionState ui;
     isPaused := isPaused ui;
     showEmailModal := showEmailModal ui;
     errorMsg := errorMsg ui;
     showEarlyExitButton := showEarlyExitButton ui;
     sessionState :=
       updateAssessmentState now sessionStartTime args (sessionState ui) |}.

(** ** Playback scheduler: the refs the socket handlers share, and what
    the audio host remembers of the sources handed to it. *)

Record Playback := mkPlayback {
  nextStartTime : Q;             (* nextStartTimeRef *)
  sources : gset nat;            (* sourcesRef: identities of buffer sources *)
  isAiSpeaking : bool;           (* isAiSpeakingRef *)
  lastAiSpeechEndTime : Z;       (* lastAiSpeechEndTimeRef *)
  scheduled : list (nat * Q * Q);
    (* host: every [source.start(t)] so far, as (source, t, duration);
       a new source is identified by its position in this list *)
  unended : gset nat;
    (* host: started sources whose [onended] has not been delivered *)
  stopped : gset nat;
    (* host: sources on which [stop()] has been called *)
  timers : nat;
    (* host: pending [setTimeout(..., 200)] callbacks *)
}.

Definition initial_playback : Playback :=
  mkPlayback 0 ∅ false 0 [] ∅ ∅ 0.

Definition sched_source (e : nat * Q * Q) : nat := e.1.1.
Definition sched_start (e : nat * Q * Q) : Q := e.1.2.

(** ['response.audio.delta'].  [delta] is the payload after the base64
    transport decoding, [currentTime] the reading of
    [outputCtx.currentTime].  An empty delta is falsy and skipped; a
    failing decode is caught and skipped. *)
Definition on_audio_delta (delta : list Byte.byte) (currentTime : Q)
    (st : Playback) : Playback :=
  match delta with
  | [] => st
  | _ =>
    match decodeAudioData delta 24000 1 with
    | None => st
    | Some audioBuffer =>
        let t := if Qltb (nextStartTime st) currentTime
                 then currentTime else nextStartTime st in
        let source := length (scheduled st) in
        {| nextStartTime := (t + duration audioBuffer)%Q;
           sources := {[source]} ∪ sources st;
           isAiSpeaking := true;
           lastAiSpeechEndTime := lastAiSpeechEndTime st;
           scheduled := scheduled st ++ [(source, t, duration audioBuffer)];
           unended := {[source]} ∪ unended st;
           stopped := stopped st;
           timers := timers st |}
    end
  end.

(** [source.onended]: drop the source; when none is left, arm the
    200 ms timer. *)
Definition on_ended (source : nat) (st : Playback) : Playback :=
  let remaining := sources st ∖ {[source]} in
  {| nextStartTime := nextStartTime st;
     sources := remaining;
     isAiSpeaking := isAiSpeaking st;
     lastAiSpeechEndTime := lastAiSpeechEndTime st;
     scheduled := scheduled st;
     unended := unended st ∖ {[source]};
     stopped := stopped st;
     timers := if (size remaining =? 0)%nat then S (timers st) else timers st |}.

(** The timer's callback; [now] is [Date.now()] when it runs. *)
Definition on_timer (now : Z) (st : Playback) : Playback :=
  {| nextStartTime := nextStartTime st;
     sources := sources st;
     isAiSpeaking := false;
     lastAiSpeechEndTime := now;
     scheduled := scheduled st;
     unended := unended st;
     stopped := stopped st;
     timers := pred (timers st) |}.

Inductive client_event := input_audio_buffer_clear.

(** ['input_audio_buffer.speech_started'], the barge-in.  Every source
    in the set is stopped (the host will still deliver its [onended]),
    the refs are reset and one clear message is sent. *)
Definition on_speech_started (st : Playback) : Playback * list client_event :=
  ({| nextStartTime := 0;
      sources := ∅;
      isAiSpeaking := false;
      lastAiSpeechEndTime := 0;
      scheduled := scheduled st;
      unended := unended st;
      stopped := sources st ∪ stopped st;
      timers := timers st |},
   [input_audio_buffer_clear]).

Definition bargeIn (st : Playback) : Playback := (on_speech_started st).1.

(** [disconnect()], as far as the scheduler goes: the cursor, the set and
    the flag are reset; the cooldown timestamp is left alone. *)
Definition disconnect (st : Playback) : Playback :=
  {| nextStartTime := 0;
     sources := ∅;
     isAiSpeaking := false;
     lastAiSpeechEndTime := lastAiSpeechEndTime st;
     scheduled := scheduled st;
     unended := unended st;
     stopped := stopped st;
     timers := timers st |}.

(** What can happen to the scheduler, and when the host can make it
    happen: [onended] only for a started source that has not ended, the
    callback only for an armed timer. *)
Inductive event :=
  | AudioDelta (delta : list Byte.byte) (currentTime : Q)
  | Ended (source : nat)
  | TimerFired (now : Z)
  | SpeechStarted
  | Disconnect.

Definition dispatch (e : event) (st : Playback) : option Playback :=
  match e with
  | AudioDelta delta currentTime => Some (on_audio_delta delta currentTime st)
  | Ended source =>
      if decide (source ∈ unended st) then Some (on_ended source st) else None
  | TimerFired now =>
      match timers st with
      | O => None
      | S _ => Some (on_timer now st)
      end
  | SpeechStarted => Some (bargeIn st)
  | Disconnect => Some (disconnect st)
  end.

Fixpoint run (evs : list event) (st : Playback) : option Playback :=
  match evs with
  | [] => Some st
  | e :: rest => st' ← dispatch e st; run rest st'
  end.

Definition reachable (st : Playback) : Prop :=
  ∃ evs, run evs initial_playback = Some st.

(** A run of audio frames only (no barge-in, nothing else in between
    that touches the cursor). *)
Definition enqueue_all (frames : list (list Byte.byte * Q)) (st : Playback)
    : Playback :=
  foldl (λ s f, on_audio_delta f.1 f.2 s) st frames.



(** ** Capture: [processor.onaudioprocess]

    What one block of microphone samples leads to: nothing, or one
    ['input_audio_buffer.append'] message.  The result is the [audio]
    field of that message.  [now] is
    [Date.now()], [wsOpen] tells whether [ws.readyState] is [OPEN].  The
    level meter fed by the same block is display state and the echo test
    only logs; neither is part of the model. *)
Definition onaudioprocess (now : Z) (isMuted isPaused wsOpen : bool)
    (inputData : list Q) (st : Playback) : option (list Ascii.ascii) :=
  if isMuted || isPaused || isAiSpeaking st then None
  else
    let timeSinceLastAiSpeech := now - lastAiSpeechEndTime st in
    if timeSinceLastAiSpeech <? 500 then None
    else
      let int16Data := float32ToInt16 inputData in
      let uint8Data := int16_bytes int16Data in
      let base64Data := encodeBase64 uint8Data in
      if wsOpen then Some base64Data else None.

(** ** The socket's [onclose] and [onerror] *)

Definition ws_onclose (ui : Ui) : Ui :=
  {| connectionState :=
       match connectionState ui with
       | ERROR => ERROR
       | COMPLETE => COMPLETE
       | _ => DISCONNECTED
       end;
     isPaused := isPaused ui;
     showEmailModal := showEmailModal ui;
     errorMsg := errorMsg ui;
     showEarlyExitButton := showEarlyExitButton ui;
     sessionState := sessionState ui |}.

Definition ws_onerror (ui : Ui) : Ui :=
  {| connectionState := ERROR;
     isPaused := isPaused ui;
     showEmailModal := showEmailModal ui;
     errorMsg := Some "Connection failed. Ensure backend relay is running.";
     showEarlyExitButton := showEarlyExitButton ui;
     sessionState := sessionState ui |}.

(** ** The argument text of a tool call

    Before [JSON.parse] the text goes through
    [replace(/^```json\s*/, '')], [replace(/^```\s*/, '')] and
    [replace(/\s*```$/, '')].  A text is the list of its code units;
    [\s] is the white space among the code units a character can stand
    for. *)

Definition is_js_space (c : Ascii.ascii) : bool :=
  let n := Ascii.nat_of_ascii c in
  ((9 <=? n) && (n <=? 13) || (n =? 32) || (n =? 160))%nat.

Definition backtick : Ascii.ascii := Ascii.ascii_of_nat 96.

Definition fence : list Ascii.ascii := [backtick; backtick; backtick].

Definition fence_json : list Ascii.ascii :=
  fence ++ String.list_ascii_of_string "json".

Fixpoint strip_prefix (p s : list Ascii.ascii) : option (list Ascii.ascii) :=
  match p, s with
  | [], _ => Some s
  | a :: p', b :: s' => if Ascii.eqb a b then strip_prefix p' s' else None
  | _ :: _, [] => None
  end.

Fixpoint skip_spaces (s : list Ascii.ascii) : list Ascii.ascii :=
  match s with
  | c :: rest => if is_js_space c then skip_spaces rest else s
  | [] => []
  end.

(** [s.replace(/^p\s*/, '')] for a literal [p]. *)
Definition strip_leading (p s : list Ascii.ascii) : list Ascii.ascii :=
  match strip_prefix p s with
  | Some rest => skip_spaces rest
  | None => s
  end.

(** [s.replace(/\s*```$/, '')].  The pattern matches only at the end of
    the text, and the leftmost match begins where the white space before
    the closing fence begins: read from the end, the fence goes, then the
    white space. *)
Definition strip_trailing_fence (s : list Ascii.ascii) : list Ascii.ascii :=
  match strip_prefix (reverse fence) (reverse s) with
  | Some rest => reverse (skip_spaces rest)
  | None => s
  end.

Definition cleanArgs (argsStr : list Ascii.ascii) : list Ascii.ascii :=
  strip_trailing_fence (strip_leading fence (strip_leading fence_json argsStr)).

(** ** [disconnect()] and what it releases

    Each ref holds its resource or [null]; the socket's ref is never
    reset. *)

Record Devices := mkDevices {
  session : bool;              (* sessionRef.current *)
  stream : bool;               (* streamRef.current *)
  inputAudioContext : bool;    (* inputAudioContextRef.current *)
  outputAudioContext : bool;   (* outputAudioContextRef.current *)
  inputScriptProcessor : bool; (* inputScriptProcessorRef.current *)
  inputSource : bool;          (* inputSourceRef.current *)
}.

Inductive release :=
  | socket_close
  | tracks_stop
  | input_context_close
  | output_context_close
  | processor_disconnect
  | source_disconnect.

(** The calls made on the resources, in order, and the refs afterwards. *)
Definition disconnect_devices (d : Devices) : list release * Devices :=
  ((if session d then [socket_close] else [])
   ++ (if stream d then [tracks_stop] else [])
   ++ (if inputAudioContext d then [input_context_close] else [])
   ++ (if outputAudioContext d then [output_context_close] else [])
   ++ (if inputScriptProcessor d then [processor_disconnect] else [])
   ++ (if inputSource d then [source_disconnect] else []),
   {| session := session d;
      stream := false;
      inputAudioContext := false;
      outputAudioContext := false;
      inputScriptProcessor := false;
      inputSource := false |}).

End LiveVoiceCoach.

Import Js AudioUtils Types LiveVoiceCoach.

(* ===================================================================== *)
(** * Notions used in the statements                                     *)
(* ===================================================================== *)


(** The duration of the buffer decoded from a mono 24 kHz frame. *)
Definition frame_duration (delta : list Byte.byte) : Q :=
  (inject_Z (Z.of_nat (length delta / 2)) / inject_Z 24000)%Q.

(** The start time the handler computes before scheduling. *)
Definition start_for (clock : Q) (st : Playback) : Q :=
  if Qltb (nextStartTime st) clock then clock else nextStartTime st.



(** What holds of the scheduler whatever the host does. *)
Definition playback_inv (st : Playback) : Prop :=
  (isAiSpeaking st = true → sources st ≠ ∅ ∨ (0 < timers st)%nat)
  ∧ sources st ⊆ unended st
  ∧ ∀ s, s ∈ unended st → (s < length (scheduled st))%nat.

(** The clamp of [float32ToInt16] and the value it stores for one
    sample. *)
Definition clamp (x : Q) : Q := Qmax (-1) (Qmin 1 x).

Definition quantize (x : Q) : Z :=
  ToInt16 (if Qltb (clamp x) 0 then clamp x * 32768 else clamp x * 32767)%Q.


(** The core of [btoa]'s output, before padding, as sextets. *)
Fixpoint b64_sextets (binary : list Ascii.ascii) : list nat :=
  match binary with
  | [] => []
  | a :: rest1 =>
      let x := Ascii.nat_of_ascii a in
      match rest1 with
      | [] => [x / 4; x mod 4 * 16]
      | b :: rest2 =>
          let y := Ascii.nat_of_ascii b in
          match rest2 with
          | [] => [x / 4; x mod 4 * 16 + y / 16; y mod 16 * 4]
          | c :: rest3 =>
              let z := Ascii.nat_of_ascii c in
              x / 4 :: x mod 4 * 16 + y / 16 :: y mod 16 * 4 + z / 64
                :: z mod 64 :: b64_sextets rest3
          end
      end
  end%nat.

(** The two ends of a JSON object text. *)
Definition open_brace : Ascii.ascii := Ascii.ascii_of_nat 123.
Definition close_brace : Ascii.ascii := Ascii.ascii_of_nat 125.

(** The ref that a release call goes through. *)
Definition held (d : Devices) (r : release) : bool :=
  match r with
  | socket_close => session d
  | tracks_stop => stream d
  | input_context_close => inputAudioContext d
  | output_context_close => outputAudioContext d
  | processor_disconnect => inputScriptProcessor d
  | source_disconnect => inputSource d
  end.

(** ** Sample inputs *)

(** [{dimensions: {DT: {score: 4.2}}, phase: "CORE"}]. *)
Definition scenario_patch : gmap string json :=
  {[ "dimensions" := JObj {[ "DT" := JObj {[ "score" := JNum (42 # 10) ]} ]};
     "phase" := JStr "CORE" ]}.

(** [{phase: "CORE", summary: s}]. *)
Definition with_summary (s : string) : gmap string json :=
  {[ "phase" := JStr "CORE"; "summary" := JStr s ]}.

(** [{phase: "CORE", newEvidence: {dimension: "DT", type: "positive"}}]. *)
Definition evidence_patch : gmap string json :=
  {[ "phase" := JStr "CORE";
     "newEvidence" := JObj {[ "dimension" := JStr "DT"; "type" := JStr "positive" ]} ]}.

(** A patch that sets the confidence of all five dimensions to ['HIGH']. *)
Definition all_HIGH_patch : gmap string json :=
  let high : json := JObj {[ "confidence" := JStr "HIGH" ]} in
  {[ "dimensions" := JObj {[ "DT" := high; "TR" := high; "CO" := high;
                             "CA" := high; "EP" := high ]};
     "phase" := JStr "VALIDATION" ]}.

(** A connected, running session in which that patch has been applied. *)
Definition confident_ui : Ui :=
  {| connectionState := CONNECTED;
     isPaused := false;
     showEmailModal := false;
     errorMsg := None;
     showEarlyExitButton := false;
     sessionState :=
       updateAssessmentState 290000 0 all_HIGH_patch INITIAL_SESSION_STATE |}.

(** One sample of audio. *)
Definition tiny_frame : list Byte.byte := [Byte.x01; Byte.x00].

(** 4096 samples of silence. *)
Definition silent_frame : list Byte.byte := repeat Byte.x00 (Z.to_nat 8192).

(** One buffer has been scheduled and is playing. *)
Definition playing : Playback := on_audio_delta tiny_frame 0 initial_playback.


(* ===================================================================== *)
(** * The sample codec                                                   *)
(* ===================================================================== *)

Section Codec.

Lemma wrap16_id z : -32768 ≤ z ≤ 32767 → wrap16 z = z.
Proof.
  intros Hz. unfold wrap16.
  destruct (Z.leb_spec 32768 (z mod 65536)) as [H|H].
  - assert (z < 0)
      by (destruct (Z.lt_ge_cases z 0); [done|rewrite Z.mod_small in H; lia]).
    rewrite <- (Z.mod_add z 1 65536) by lia. rewrite Z.mod_small; lia.
  - destruct (Z.lt_ge_cases z 0) as [Hn|Hn].
    + rewrite <- (Z.mod_add z 1 65536) in H by lia.
      rewrite Z.mod_small in H; lia.
    + rewrite Z.mod_small; lia.
Qed.

Lemma wrap16_range z : -32768 ≤ wrap16 z ≤ 32767.
Proof.
  unfold wrap16. pose proof (Z.mod_pos_bound z 65536 ltac:(lia)).
  destruct (Z.leb_spec 32768 (z mod 65536)); lia.
Qed.

#[local] Instance Qtrunc_proper : Proper (Qeq ==> eq) Qtrunc.
Proof.
  intros x y Hxy. unfold Qtrunc.
  rewrite (Qleb_comp 0%Q 0%Q (Qeq_refl 0%Q) x y Hxy).
  by rewrite (Qfloor_comp x y Hxy), (Qceiling_comp x y Hxy).
Qed.

#[local] Instance ToInt16_proper : Proper (Qeq ==> eq) ToInt16.
Proof. intros x y Hxy. unfold ToInt16. by rewrite Hxy. Qed.

Lemma Qltb_lt x y : Qltb x y = true ↔ (x < y)%Q.
Proof.
  unfold Qltb. rewrite negb_true_iff, <- not_true_iff_false, Qle_bool_iff.
  split; [apply Qnot_le_lt | apply Qlt_not_le].
Qed.

Lemma Qltb_ge x y : Qltb x y = false ↔ (y <= x)%Q.
Proof. unfold Qltb. by rewrite negb_false_iff, Qle_bool_iff. Qed.







Lemma length_int16_bytes l : length (int16_bytes l) = (2 * length l)%nat.
Proof.
  induction l as [|v l IH]; [done|].
  change (int16_bytes (v :: l)) with (int16_bytes [v] ++ int16_bytes l).
  rewrite length_app, IH. simpl. lia.
Qed.

(** Inside the buffer the read succeeds, with a value in range. *)
Lemma getInt16_is_Some data offset :
  (offset + 1 < length data)%nat →
  ∃ v, getInt16 data offset = Some v ∧ -32768 ≤ v ≤ 32767.
Proof.
  intros Hlt. unfold getInt16.
  destruct (lookup_lt_is_Some_2 data offset ltac:(lia)) as [lo ->].
  destruct (lookup_lt_is_Some_2 data (S offset) ltac:(lia)) as [hi ->].
  simpl. eexists; split; [done|apply wrap16_range].
Qed.

Lemma int16_at_spec data i :
  (i < length data / 2)%nat →
  getInt16 data (i * 2) = Some (int16_at data i)
  ∧ -32768 ≤ int16_at data i ≤ 32767.
Proof.
  intros Hi. unfold int16_at.
  assert (i * 2 + 1 < length data)%nat as Hlt.
  { pose proof (Nat.Div0.mul_div_le (length data) 2). lia. }
  destruct (getInt16_is_Some data (i * 2) Hlt) as (v & -> & Hv). done.
Qed.

(** The floor in [frameCount] keeps every read of the loop inside the
    buffer: the mono decode always returns. *)
Lemma decodeAudioData_mono data rate :
  decodeAudioData data rate 1 =
    Some (mkAudioBuffer rate (length data / 2)
            [(λ i, (inject_Z (int16_at data i) / 32768)%Q)
               <$> seq 0 (length data / 2)]).
Proof.
  unfold decodeAudioData.
  change (1 * 2)%nat with 2%nat.
  set (n := (length data / 2)%nat).
  assert (mapM (λ i, int16 ← getInt16 data ((i * 1 + 0) * 2);
                     Some (inject_Z int16 / 32768)%Q) (seq 0 n)
          = Some ((λ i, (inject_Z (int16_at data i) / 32768)%Q) <$> seq 0 n))
    as Hin.
  { apply mapM_Some_2, Forall2_fmap_r, Forall_Forall2_diag, Forall_forall.
    intros i Hi. apply elem_of_seq in Hi.
    replace ((i * 1 + 0) * 2)%nat with (i * 2)%nat by lia.
    destruct (int16_at_spec data i) as [-> _]; [subst n; lia|done]. }
  simpl. rewrite Hin. reflexivity.
Qed.





(** The trip is exact on samples that are not positive and costs exactly
    one unit on the positive ones. *)
Example round_trip_values :
  roundtrip [Byte.x01; Byte.x00; Byte.xff; Byte.x7f; Byte.x00; Byte.x80;
             Byte.xff; Byte.xff]
  = Some [Byte.x00; Byte.x00; Byte.xfe; Byte.x7f; Byte.x00; Byte.x80;
          Byte.xff; Byte.xff].
Proof. vm_compute. reflexivity. Qed.



End Codec.


(* ===================================================================== *)
(** * The assessment store                                               *)
(* ===================================================================== *)

Section Store.

Implicit Types (args : gmap string json) (prev st : SessionState).
Implicit Types (now start : Z) (k f : string).

(** The loop over the keys of the patch, read one key at a time. *)
Lemma lookup_foldl_merge_dimension patch (ks : list string)
    (acc : gmap string (gmap string json)) k :
  NoDup ks →
  foldl (merge_dimension patch) acc ks !! k =
    if bool_decide (k ∈ ks) && truthy_opt (own_props patch !! k)
    then Some (spread (own_props patch !! k) ∪ default ∅ (acc !! k))
    else acc !! k.
Proof.
  intros Hnd. revert acc. induction Hnd as [|k' ks Hnotin Hnd IH]; intros acc.
  - done.
  - simpl. rewrite IH. unfold merge_dimension.
    destruct (decide (k = k')) as [->|Hne].
    + rewrite (bool_decide_eq_false_2 (k' ∈ ks) Hnotin).
      rewrite (bool_decide_eq_true_2 (k' ∈ k' :: ks)); [|by left].
      simpl. destruct (truthy_opt (own_props patch !! k')); [|done].
      by rewrite lookup_insert_eq.
    + assert (bool_decide (k ∈ k' :: ks) = bool_decide (k ∈ ks)) as ->.
      { apply bool_decide_ext. rewrite elem_of_cons. tauto. }
      destruct (truthy_opt (own_props patch !! k')); [|done].
      by rewrite lookup_insert_ne.
Qed.

Lemma lookup_merge_dimensions (dims : gmap string (gmap string json)) args k :
  merge_dimensions dims (args !! "dimensions") !! k =
    match patch_dimension args k with
    | Some e => Some (own_props e ∪ default ∅ (dims !! k))
    | None => dims !! k
    end.
Proof.
  unfold merge_dimensions, patch_dimension.
  destruct (args !! "dimensions") as [d|]; simpl; [|done].
  destruct (truthy d) eqn:Hd; [|done].
  rewrite lookup_foldl_merge_dimension by apply NoDup_fst_map_to_list.
  destruct (own_props d !! k) as [e|] eqn:He; simpl.
  - rewrite bool_decide_eq_true_2.
    2:{ unfold Object_keys. apply list_elem_of_fmap. exists (k, e).
        split; [done|]. by apply elem_of_map_to_list. }
    simpl. by destruct (truthy e).
  - by rewrite andb_false_r.
Qed.

(** The later spread wins, field by field. *)
Lemma lookup_union_field (m1 m2 : gmap string json) f :
  (m1 ∪ m2) !! f = match m1 !! f with Some v => Some v | None => m2 !! f end.
Proof.
  destruct (m1 !! f) as [v|] eqn:H1.
  - by apply lookup_union_Some_l.
  - by rewrite lookup_union_r.
Qed.

(** C1.  A patch is merged field by field: a dimension the patch has no
    entry for is left as it was; where the patch has an entry, each field
    of that entry replaces the stored field of the same name and every
    other field of the dimension keeps its value.  For the patch
    [{dimensions: {DT: {score: 4.2}}, phase: "CORE"}] applied to the
    initial state, only [DT.score] and the phase change among the merged
    fields. *)
Theorem patch_merges_field_by_field now start args prev :
  let new := updateAssessmentState now start args prev in
  (∀ k, patch_dimension args k = None →
        dimensions new !! k = dimensions prev !! k)
  ∧ (∀ k e f, patch_dimension args k = Some e →
        dimensions new !! k ≫= (.!! f) =
          match own_props e !! f with
          | Some v => Some v
          | None => dimensions prev !! k ≫= (.!! f)
          end)
  ∧ (let after :=
       updateAssessmentState now start scenario_patch INITIAL_SESSION_STATE in
     dimensions after =
       <["DT" := <["score" := JNum (42 # 10)]> initial_dimension]>
         (dimensions INITIAL_SESSION_STATE)
     ∧ conversationPhase after = JStr "CORE"
     ∧ strengths after = strengths INITIAL_SESSION_STATE
     ∧ developmentPriorities after = developmentPriorities INITIAL_SESSION_STATE
     ∧ summary after = summary INITIAL_SESSION_STATE
     ∧ evidenceLog after = evidenceLog INITIAL_SESSION_STATE
     ∧ contradictions after = contradictions INITIAL_SESSION_STATE).
Proof.
  cbn zeta. split; [|split].
  - intros k Hk. cbn [updateAssessmentState dimensions].
    by rewrite lookup_merge_dimensions, Hk.
  - intros k e f Hk. cbn [updateAssessmentState dimensions].
    rewrite lookup_merge_dimensions, Hk. cbn [mbind option_bind].
    rewrite lookup_union_field.
    destruct (own_props e !! f); [done|].
    by destruct (dimensions prev !! k).
  - repeat split; vm_compute; reflexivity.
Qed.

Lemma patch_merges_field_by_field_witness :
  patch_dimension scenario_patch "DT" = Some (JObj {[ "score" := JNum (42 # 10) ]})
  ∧ patch_dimension scenario_patch "TR" = None
  ∧ (let new := updateAssessmentState 61500 1000 scenario_patch INITIAL_SESSION_STATE in
     dimensions new !! "DT" ≫= (.!! "score") = Some (JNum (42 # 10))
     ∧ dimensions new !! "DT" ≫= (.!! "confidence") = Some (JStr "LOW")
     ∧ dimensions new !! "TR" = Some initial_dimension).
Proof.
  split; [vm_compute; reflexivity|]. split; [vm_compute; reflexivity|].
  destruct (patch_merges_field_by_field 61500 1000 scenario_patch
              INITIAL_SESSION_STATE) as (Habsent & Hpresent & _).
  assert (patch_dimension scenario_patch "DT"
          = Some (JObj {[ "score" := JNum (42 # 10) ]})) as Hdt
    by (vm_compute; reflexivity).
  assert (patch_dimension scenario_patch "TR" = None) as Htr
    by (vm_compute; reflexivity).
  split; [|split].
  - etrans; [apply (Hpresent "DT" _ "score" Hdt)|vm_compute; reflexivity].
  - etrans; [apply (Hpresent "DT" _ "confidence" Hdt)|vm_compute; reflexivity].
  - etrans; [apply (Habsent "TR" Htr)|vm_compute; reflexivity].
Defined.


(** The point of the scenario: DT at 4.2, the others where they were. *)
Example scenario_score_point :
  scoreHistory (updateAssessmentState 61500 1000 scenario_patch INITIAL_SESSION_STATE)
  = scoreHistory INITIAL_SESSION_STATE ++
      [mkScorePoint 60 (JNum (42 # 10)) (JNum 3) (JNum 3) (JNum 3) (JNum 3)].
Proof. vm_compute. reflexivity. Qed.

Lemma push_if_truthy_prefix log item : log `prefix_of` push_if_truthy log item.
Proof.
  unfold push_if_truthy. destruct item as [v|]; [destruct (truthy v)|]; try done.
  by apply prefix_app_r.
Qed.

Lemma logs_grow_by_prefix start patches st :
  evidenceLog st `prefix_of` evidenceLog (apply_patches start patches st)
  ∧ contradictions st `prefix_of` contradictions (apply_patches start patches st).
Proof.
  revert st. induction patches as [|p ps IH]; intros st; [done|].
  unfold apply_patches in *. cbn [foldl].
  destruct (IH (updateAssessmentState p.1 start p.2 st)) as [He Hc].
  split; (etrans; [|eassumption]); apply push_if_truthy_prefix.
Qed.

(** C5.  The evidence log and the contradiction log only grow at their
    end: over any sequence of patches the old log is a prefix of the new
    one.  A patch carrying a [newEvidence] object appends exactly that one
    item, a patch carrying a [contradiction] object exactly that one alert
    (as does any truthy value), and a patch without them appends nothing. *)
Theorem logs_are_append_only now start args prev :
  let new := updateAssessmentState now start args prev in
  (∀ e, args !! "newEvidence" = Some (JObj e) →
        evidenceLog new = evidenceLog prev ++ [JObj e])
  ∧ (∀ v, args !! "newEvidence" = Some v → truthy v = true →
        evidenceLog new = evidenceLog prev ++ [v])
  ∧ (truthy_opt (args !! "newEvidence") = false →
        evidenceLog new = evidenceLog prev)
  ∧ (∀ c, args !! "contradiction" = Some (JObj c) →
        contradictions new = contradictions prev ++ [JObj c])
  ∧ (∀ v, args !! "contradiction" = Some v → truthy v = true →
        contradictions new = contradictions prev ++ [v])
  ∧ (truthy_opt (args !! "contradiction") = false →
        contradictions new = contradictions prev)
  ∧ ∀ patches st,
      evidenceLog st `prefix_of` evidenceLog (apply_patches start patches st)
      ∧ contradictions st
          `prefix_of` contradictions (apply_patches start patches st).
Proof.
  cbn zeta. cbn [updateAssessmentState evidenceLog contradictions].
  unfold push_if_truthy.
  repeat split.
  - by intros e ->.
  - by intros v -> ->.
  - destruct (args !! "newEvidence") as [v|]; [|done]. by simpl; intros ->.
  - by intros e ->.
  - by intros v -> ->.
  - destruct (args !! "contradiction") as [v|]; [|done]. by simpl; intros ->.
  - apply logs_grow_by_prefix.
  - apply logs_grow_by_prefix.
Qed.

Lemma logs_are_append_only_witness :
  let item := JObj {[ "dimension" := JStr "DT"; "type" := JStr "positive" ]} in
  let new := updateAssessmentState 5000 0 evidence_patch INITIAL_SESSION_STATE in
  evidence_patch !! "newEvidence" = Some item
  ∧ truthy_opt (evidence_patch !! "contradiction") = false
  ∧ evidenceLog new = evidenceLog INITIAL_SESSION_STATE ++ [item]
  ∧ contradictions new = contradictions INITIAL_SESSION_STATE.
Proof.
  cbn zeta.
  split; [vm_compute; reflexivity|]. split; [vm_compute; reflexivity|].
  destruct (logs_are_append_only 5000 0 evidence_patch INITIAL_SESSION_STATE)
    as (Hobj & _ & _ & _ & _ & Hnone & _).
  assert (evidence_patch !! "newEvidence"
          = Some (JObj {[ "dimension" := JStr "DT"; "type" := JStr "positive" ]}))
    as Hitem by (vm_compute; reflexivity).
  assert (truthy_opt (evidence_patch !! "contradiction") = false) as Hno
    by (vm_compute; reflexivity).
  split.
  - etrans; [apply (Hobj _ Hitem)|vm_compute; reflexivity].
  - etrans; [apply (Hnone Hno)|vm_compute; reflexivity].
Defined.

(** C10, as the code has it.  Each of [phase], [strengths],
    [developmentPriorities] and [summary] replaces the stored value exactly
    when the patch's value for it is truthy; an absent, null, false, zero
    or empty-string value keeps the stored one.  An empty [strengths] array
    is truthy and replaces; an empty-string [summary] does not. *)
Theorem truthy_fields_overwrite now start args prev :
  let new := updateAssessmentState now start args prev in
  let pick (field : string) (old : json) :=
    match args !! field with
    | Some v => if truthy v then v else old
    | None => old
    end in
  conversationPhase new = pick "phase" (conversationPhase prev)
  ∧ strengths new = pick "strengths" (strengths prev)
  ∧ developmentPriorities new =
      pick "developmentPriorities" (developmentPriorities prev)
  ∧ summary new =
      match args !! "summary" with
      | Some v => if truthy v then Some v else summary prev
      | None => summary prev
      end
  ∧ (args !! "strengths" = Some (JArr []) → strengths new = JArr [])
  ∧ (args !! "summary" = Some (JStr EmptyString) → summary new = summary prev).
Proof.
  cbn zeta.
  cbn [updateAssessmentState conversationPhase strengths developmentPriorities
       summary].
  unfold or_prev, js_or, truthy_opt.
  repeat split.
  - destruct (args !! "phase") as [v|]; [by destruct (truthy v)|done].
  - destruct (args !! "strengths") as [v|]; [by destruct (truthy v)|done].
  - destruct (args !! "developmentPriorities") as [v|];
      [by destruct (truthy v)|done].
  - destruct (args !! "summary") as [v|]; [by destruct (truthy v)|done].
  - by intros ->.
  - by intros ->.
Qed.

Lemma truthy_fields_overwrite_witness :
  let prev := updateAssessmentState 1000 0 (with_summary "old") INITIAL_SESSION_STATE in
  with_summary EmptyString !! "summary" = Some (JStr EmptyString)
  ∧ summary (updateAssessmentState 2000 0 (with_summary EmptyString) prev) = summary prev.
Proof.
  cbn zeta. split; [vm_compute; reflexivity|].
  apply (truthy_fields_overwrite 2000 0 (with_summary EmptyString)
           (updateAssessmentState 1000 0 (with_summary "old") INITIAL_SESSION_STATE)).
  vm_compute; reflexivity.
Defined.

(** C10, as stated, fails: a patch whose [summary] is present and empty
    leaves the stored summary ["old"] in place. *)
Lemma empty_summary_does_not_overwrite :
  let prev := updateAssessmentState 1000 0 (with_summary "old") INITIAL_SESSION_STATE in
  let args := with_summary EmptyString in
  let new := updateAssessmentState 2000 0 args prev in
  args !! "summary" = Some (JStr EmptyString)
  ∧ summary prev = Some (JStr "old")
  ∧ summary new = Some (JStr "old")
  ∧ summary new ≠ args !! "summary".
Proof. repeat split; vm_compute; try reflexivity. discriminate. Qed.

End Store.


(* ===================================================================== *)
(** * The session monitor                                                *)
(* ===================================================================== *)

Section Monitor.

(** The test for the early exit compares with ['high']; a store whose
    dimensions carry the confidence ['HIGH'] of [DimensionState] never
    passes it. *)
Lemma allHigh_false_on_HIGH (dims : gmap string (gmap string json)) :
  dims ≠ ∅ →
  (∀ k d, dims !! k = Some d → d !! "confidence" = Some (JStr "HIGH")) →
  allHigh dims = false.
Proof.
  intros Hne Hall. unfold allHigh. apply andb_false_iff. right.
  destruct (map_choose dims Hne) as (k & d & Hkd).
  apply not_true_iff_false. intros Hf. rewrite forallb_forall in Hf.
  specialize (Hf d). rewrite (Hall k d Hkd) in Hf. simpl in Hf.
  assert (false = true) as Habs; [|done]. apply Hf.
  apply list_elem_of_In, list_elem_of_fmap. exists (k, d). split; [done|].
  by apply elem_of_map_to_list.
Qed.

(** With the lower-case spelling the test passes and the signal is
    raised. *)
Lemma allHigh_true_on_high (dims : gmap string (gmap string json)) :
  (5 ≤ size dims)%nat →
  (∀ k d, dims !! k = Some d → d !! "confidence" = Some (JStr "high")) →
  allHigh dims = true.
Proof.
  intros Hsize Hall. unfold allHigh. apply andb_true_iff. split.
  - by apply Nat.leb_le.
  - apply forallb_forall. intros d Hd.
    apply list_elem_of_In, list_elem_of_fmap in Hd as ([k d'] & -> & Hkd).
    apply elem_of_map_to_list in Hkd. cbn [snd]. by rewrite (Hall k d' Hkd).
Qed.

(** So no tick raises the signal for such a store, whatever the time. *)
Lemma monitor_tick_misses_HIGH now start ui :
  dimensions (sessionState ui) ≠ ∅ →
  (∀ k d, dimensions (sessionState ui) !! k = Some d →
          d !! "confidence" = Some (JStr "HIGH")) →
  showEarlyExitButton (monitor_tick now start ui) = showEarlyExitButton ui.
Proof.
  intros Hne Hall. unfold monitor_tick.
  rewrite (allHigh_false_on_HIGH _ Hne Hall).
  repeat match goal with |- context [if ?b then _ else _] => destruct b end;
    done.
Qed.

(** The tick does raise it between the two thresholds when the
    confidences are spelled ['high']. *)
Lemma monitor_tick_raises_on_high now start ui :
  connectionState ui = CONNECTED → isPaused ui = false →
  300000 ≤ now - start < 1200000 →
  (5 ≤ size (dimensions (sessionState ui)))%nat →
  (∀ k d, dimensions (sessionState ui) !! k = Some d →
          d !! "confidence" = Some (JStr "high")) →
  showEarlyExitButton (monitor_tick now start ui) = true.
Proof.
  intros Hc Hp Ht Hsize Hall. unfold monitor_tick. rewrite Hc, Hp. cbn.
  assert (Qle_bool 20 (inject_Z (now - start) / 60000) = false) as ->.
  { apply not_true_iff_false. rewrite Qle_bool_iff. unfold Qle; simpl. lia. }
  assert (Qle_bool 5 (inject_Z (now - start) / 60000) = true) as ->.
  { rewrite Qle_bool_iff. unfold Qle; simpl. lia. }
  by rewrite (allHigh_true_on_high _ Hsize Hall).
Qed.

(** Once raised, the signal stays: neither a tick nor a patch lowers it. *)
Lemma early_exit_latches_tick now start ui :
  showEarlyExitButton ui = true →
  showEarlyExitButton (monitor_tick now start ui) = true.
Proof.
  intros H. unfold monitor_tick.
  repeat match goal with |- context [if ?b then _ else _] => destruct b end;
    done.
Qed.

Lemma early_exit_latches_patch now start args ui :
  showEarlyExitButton (on_update_assessment now start args ui)
  = showEarlyExitButton ui.
Proof. done. Qed.

(** C8, on the code.  In a connected, running session whose five
    dimensions all have confidence ['HIGH'], the tick at the five-minute
    mark, and the one at ten minutes, leave the early-exit signal down. *)
Theorem early_exit_misses_HIGH :
  Forall (λ k, dimensions (sessionState confident_ui) !! k
                 ≫= (.!! "confidence") = Some (JStr "HIGH"))
         ["DT"; "TR"; "CO"; "CA"; "EP"]
  ∧ size (dimensions (sessionState confident_ui)) = 5%nat
  ∧ showEarlyExitButton (monitor_tick 300000 0 confident_ui) = false
  ∧ showEarlyExitButton (monitor_tick 600000 0 confident_ui) = false.
Proof.
  split; [|repeat split; vm_compute; reflexivity].
  repeat (apply Forall_cons; split; [vm_compute; reflexivity|]).
  apply Forall_nil_2.
Qed.

End Monitor.


(* ===================================================================== *)
(** * The playback scheduler                                             *)
(* ===================================================================== *)

Section Scheduler.

Implicit Types (st : Playback) (delta : list Byte.byte) (clock : Q).

(** A frame that is not empty is always decoded and scheduled. *)
Lemma on_audio_delta_nonempty delta clock st :
  delta ≠ [] →
  on_audio_delta delta clock st =
    {| nextStartTime := (start_for clock st + frame_duration delta)%Q;
       sources := {[length (scheduled st)]} ∪ sources st;
       isAiSpeaking := true;
       lastAiSpeechEndTime := lastAiSpeechEndTime st;
       scheduled := scheduled st ++
         [(length (scheduled st), start_for clock st, frame_duration delta)];
       unended := {[length (scheduled st)]} ∪ unended st;
       stopped := stopped st;
       timers := timers st |}.
Proof.
  intros Hne. unfold on_audio_delta. destruct delta as [|b delta]; [done|].
  by rewrite decodeAudioData_mono.
Qed.









(** The scenario of the design: three frames of 4096 samples, enqueued
    while the clock reads 0, start at 0, 4096/24000 and 8192/24000. *)
Example three_frames_scenario :
  Forall2 Qeq
    (sched_start <$>
       scheduled (enqueue_all [(silent_frame, 0%Q); (silent_frame, 0%Q);
                               (silent_frame, 0%Q)]
                    initial_playback))
    [0%Q; 4096 # 24000; 8192 # 24000].
Proof.
  assert (silent_frame ≠ []) as Hne by (vm_compute; discriminate).
  assert (frame_duration silent_frame = 4096 # 24000) as Hd
    by (vm_compute; reflexivity).
  unfold enqueue_all. cbn [foldl fst snd].
  rewrite !(on_audio_delta_nonempty silent_frame) by exact Hne.
  rewrite Hd. cbn [scheduled initial_playback app fmap list_fmap].
  repeat constructor.
Qed.


(** C3.  From any state, also one with no source in the set, the barge-in
    stops every source of the set, leaves the set empty, the speaking flag
    down, the cursor at 0 and the cooldown timestamp cleared; it never
    fails, and a second run changes nothing more.  Each run sends one
    clear message. *)
Theorem barge_in_resets st :
  let st' := bargeIn st in
  sources st' = ∅
  ∧ isAiSpeaking st' = false
  ∧ nextStartTime st' = 0%Q
  ∧ lastAiSpeechEndTime st' = 0
  ∧ sources st ⊆ stopped st'
  ∧ bargeIn st' = st'
  ∧ dispatch SpeechStarted st = Some st'
  ∧ (on_speech_started st).2 = [input_audio_buffer_clear].
Proof.
  cbn zeta. repeat split.
  - cbn. set_solver.
  - unfold bargeIn, on_speech_started. cbn. f_equal. apply (left_id_L ∅ (∪)).
Qed.

Example barge_in_on_empty_set :
  bargeIn initial_playback = initial_playback.
Proof. reflexivity. Qed.

Lemma on_audio_delta_inv delta clock st :
  playback_inv st → playback_inv (on_audio_delta delta clock st).
Proof.
  intros (Hsp & Hsub & Hlt).
  destruct (decide (delta = [])) as [->|Hne]; [done|].
  rewrite on_audio_delta_nonempty by done.
  split; [|split]; cbn.
  - intros _. left. set_solver.
  - set_solver.
  - intros s Hs. rewrite length_app. cbn.
    apply elem_of_union in Hs as [Hs|Hs].
    + apply elem_of_singleton in Hs. lia.
    + specialize (Hlt s Hs). lia.
Qed.

Lemma on_ended_inv s st : playback_inv st → playback_inv (on_ended s st).
Proof.
  intros (Hsp & Hsub & Hlt). split; [|split]; cbn.
  - intros Hs. destruct (Nat.eqb_spec (size (sources st ∖ {[s]})) 0) as [Hz|Hnz].
    + right. lia.
    + left. intros Hempty. rewrite Hempty, size_empty in Hnz. done.
  - set_solver.
  - intros x Hx. apply Hlt. set_solver.
Qed.

Lemma dispatch_inv e st st' :
  playback_inv st → dispatch e st = Some st' → playback_inv st'.
Proof.
  intros Hinv Hd. destruct e as [delta clock|s|now| |]; cbn in Hd.
  - simplify_eq. by apply on_audio_delta_inv.
  - case_decide; simplify_eq. by apply on_ended_inv.
  - destruct (timers st); simplify_eq. destruct Hinv as (_ & Hsub & Hlt).
    split; [|split]; cbn; done.
  - simplify_eq. destruct Hinv as (_ & Hsub & Hlt).
    split; [|split]; cbn; [done|set_solver|done].
  - simplify_eq. destruct Hinv as (_ & Hsub & Hlt).
    split; [|split]; cbn; [done|set_solver|done].
Qed.

Lemma run_inv evs st st' :
  playback_inv st → run evs st = Some st' → playback_inv st'.
Proof.
  revert st. induction evs as [|e evs IH]; intros st Hinv Hrun; cbn in Hrun.
  - by simplify_eq.
  - destruct (dispatch e st) as [st1|] eqn:Hd; [|done]. cbn in Hrun.
    eapply IH; [|done]. by eapply dispatch_inv.
Qed.

Lemma initial_playback_inv : playback_inv initial_playback.
Proof. split; [|split]; cbn; [done|set_solver|set_solver]. Qed.

Lemma reachable_inv st : reachable st → playback_inv st.
Proof.
  intros [evs Hrun]. eapply run_inv; [apply initial_playback_inv|done].
Qed.



(** The timer is not cancelled by a later frame: armed when the first
    buffer ended, it lowers the flag while the second is in the set. *)
Example stale_timer_lowers_flag :
  ∃ st, run [AudioDelta tiny_frame 0%Q; Ended 0%nat;
             AudioDelta tiny_frame 0%Q; TimerFired 1000] initial_playback
        = Some st
        ∧ isAiSpeaking st = false ∧ sources st = {[1%nat]}.
Proof. eexists. split; [vm_compute; reflexivity|]. split; reflexivity. Qed.




End Scheduler.


(* ===================================================================== *)
(** * More on the codec                                                  *)
(* ===================================================================== *)

Section Quantization.

Lemma float32ToInt16_quantize l : float32ToInt16 l = quantize <$> l.
Proof. reflexivity. Qed.

Lemma clamp_range x : (-1 <= clamp x <= 1)%Q.
Proof.
  unfold clamp. split.
  - apply Q.le_max_l.
  - apply Q.max_lub; [done|apply Q.le_min_l].
Qed.

Lemma clamp_mono x y : (x <= y)%Q → (clamp x <= clamp y)%Q.
Proof.
  intros Hxy. unfold clamp.
  apply Q.max_le_compat_l. by apply Q.min_le_compat_l.
Qed.

(** The scaled sample lies in the 16-bit range, so the store keeps its
    truncation as it is. *)
Lemma quantize_no_wrap x :
  quantize x = (if Qltb (clamp x) 0 then Qceiling (clamp x * 32768)
                else Qfloor (clamp x * 32767))
  ∧ -32768 ≤ quantize x ≤ 32767.
Proof.
  destruct (clamp_range x) as [Hlo Hhi]. unfold quantize, ToInt16, Qtrunc.
  destruct (Qltb (clamp x) 0) eqn:Hneg.
  - apply Qltb_lt in Hneg.
    destruct (Qle_bool 0 (clamp x * 32768)) eqn:Hle.
    { apply Qle_bool_iff in Hle. exfalso.
      apply (Qlt_not_le _ _ Hneg).
      apply (Qmult_le_r _ _ 32768); [done|]. by rewrite Qmult_0_l. }
    assert (-32768 ≤ Qceiling (clamp x * 32768) ≤ 0) as Hr.
    { split.
      - rewrite <- (Qceiling_Z (-32768)). apply Qceiling_resp_le.
        change (inject_Z (-32768)) with (-1 * 32768)%Q.
        by apply Qmult_le_compat_r.
      - rewrite <- (Qceiling_Z 0). apply Qceiling_resp_le.
        change (inject_Z 0) with (0 * 32768)%Q.
        apply Qmult_le_compat_r; [by apply Qlt_le_weak|done]. }
    rewrite wrap16_id by lia. split; [done|lia].
  - apply Qltb_ge in Hneg.
    destruct (Qle_bool 0 (clamp x * 32767)) eqn:Hle.
    2:{ apply not_true_iff_false in Hle. rewrite Qle_bool_iff in Hle.
        exfalso. apply Hle. by apply Qmult_le_0_compat. }
    assert (0 ≤ Qfloor (clamp x * 32767) ≤ 32767) as Hr.
    { split.
      - rewrite <- (Qfloor_Z 0). apply Qfloor_resp_le.
        by apply Qmult_le_0_compat.
      - rewrite <- (Qfloor_Z 32767). apply Qfloor_resp_le.
        change (inject_Z 32767) with (1 * 32767)%Q.
        by apply Qmult_le_compat_r. }
    rewrite wrap16_id by lia. split; [done|lia].
Qed.

Lemma quantize_mono x y : (x <= y)%Q → quantize x ≤ quantize y.
Proof.
  intros Hxy. pose proof (clamp_mono x y Hxy) as Hc.
  destruct (quantize_no_wrap x) as [Hx _], (quantize_no_wrap y) as [Hy _].
  rewrite Hx, Hy.
  destruct (Qltb (clamp x) 0) eqn:Hnx, (Qltb (clamp y) 0) eqn:Hny.
  - apply Qceiling_resp_le. by apply Qmult_le_compat_r.
  - apply Qltb_lt in Hnx. apply Qltb_ge in Hny.
    trans 0.
    + rewrite <- (Qceiling_Z 0). apply Qceiling_resp_le.
      change (inject_Z 0) with (0 * 32768)%Q.
      apply Qmult_le_compat_r; [by apply Qlt_le_weak|done].
    + rewrite <- (Qfloor_Z 0). apply Qfloor_resp_le.
      by apply Qmult_le_0_compat.
  - apply Qltb_ge in Hnx. apply Qltb_lt in Hny. exfalso.
    apply (Qlt_not_le _ _ Hny). by apply (Qle_trans _ (clamp x)).
  - apply Qfloor_resp_le. by apply Qmult_le_compat_r.
Qed.

Lemma quantize_saturates x :
  ((1 <= x)%Q → quantize x = 32767) ∧ ((x <= -1)%Q → quantize x = -32768).
Proof.
  split; intros Hx.
  - assert (clamp x == 1) as Hc.
    { unfold clamp. rewrite (Q.min_l 1 x Hx). by apply Q.max_r. }
    destruct (quantize_no_wrap x) as [-> _].
    rewrite (proj2 (Qltb_ge (clamp x) 0)) by (rewrite Hc; done).
    rewrite Hc. reflexivity.
  - assert (clamp x == -1) as Hc.
    { unfold clamp. apply Q.max_l.
      apply (Qle_trans _ x); [apply Q.le_min_r|done]. }
    destruct (quantize_no_wrap x) as [-> _].
    rewrite (proj2 (Qltb_lt (clamp x) 0)) by (rewrite Hc; done).
    rewrite Hc. reflexivity.
Qed.


(** X3.  [float32ToInt16] keeps the length and the order of the samples
    and never wraps around: a sample of 1 or more is stored as 32767, a
    sample of -1 or less as -32768, zero as 0, and of two samples the
    smaller never gets the larger value. *)
Theorem float32ToInt16_saturates_and_orders (float32Data : list Q) :
  length (float32ToInt16 float32Data) = length float32Data
  ∧ ∀ i x, float32Data !! i = Some x →
      ∃ u, float32ToInt16 float32Data !! i = Some u
           ∧ ((1 <= x)%Q → u = 32767)
           ∧ ((x <= -1)%Q → u = -32768)
           ∧ (x == 0 → u = 0)
           ∧ ∀ j y v, float32Data !! j = Some y →
               float32ToInt16 float32Data !! j = Some v →
               (x <= y)%Q → u ≤ v.
Proof.
  rewrite float32ToInt16_quantize. split; [apply length_fmap|].
  intros i x Hi. exists (quantize x).
  rewrite list_lookup_fmap, Hi. split; [done|].
  destruct (quantize_saturates x) as [Hhi Hlo].
  split; [done|]. split; [done|]. split.
  - intros Hz. apply Z.le_antisymm.
    + change 0 with (quantize 0). apply quantize_mono. by rewrite Hz.
    + change 0 with (quantize 0). apply quantize_mono. by rewrite Hz.
  - intros j y v Hj Hv Hxy. rewrite list_lookup_fmap, Hj in Hv.
    simplify_eq/=. by apply quantize_mono.
Qed.

(** Without the clamp 1.5 would be stored as a negative number. *)
Example overdriven_samples :
  float32ToInt16 [(3 # 2)%Q; (-3 # 2)%Q; (1 # 2)%Q; (-1 # 2)%Q]
  = [32767; -32768; 16383; -16384].
Proof. vm_compute. reflexivity. Qed.


End Quantization.


Section Deinterleaving.




Example stereo_frame_is_split :
  decodeAudioData [Byte.x01; Byte.x00; Byte.xff; Byte.xff; Byte.x00; Byte.x80;
                   Byte.xff; Byte.x7f; Byte.x2a] 24000 2
  = Some (mkAudioBuffer 24000 2
            [[(1 # 32768)%Q; (-32768 # 32768)%Q];
             [(-1 # 32768)%Q; (32767 # 32768)%Q]]).
Proof. vm_compute. reflexivity. Qed.

End Deinterleaving.


(* ===================================================================== *)
(** * Base64 framing of the audio bytes                                  *)
(* ===================================================================== *)

Section Framing.

#[local] Open Scope nat_scope.

#[local] Ltac divlia := zify; Z.to_euclidean_division_equations; lia.

Lemma triple_ind {A} (P : list A → Prop) :
  P [] → (∀ a, P [a]) → (∀ a b, P [a; b]) →
  (∀ a b c l, P l → P (a :: b :: c :: l)) → ∀ l, P l.
Proof.
  intros H0 H1 H2 H3 l.
  assert (∀ n l, length l ≤ n → P l) as Hn.
  { intros n. induction n as [|n IH]; intros k Hk.
    - destruct k; [done|cbn in Hk; lia].
    - destruct k as [|a [|b [|c k]]]; [done..|].
      apply H3, IH. cbn in Hk. lia. }
  by apply (Hn (length l)).
Qed.

Lemma below_64 (P : nat → bool) :
  forallb P (seq 0 64) = true → ∀ n, n < 64 → P n = true.
Proof.
  intros Hall n Hn. rewrite forallb_forall in Hall. apply Hall.
  apply in_seq. lia.
Qed.

Lemma b64_value_char n : n < 64 → b64_value (b64_char n) = Some n.
Proof.
  intros Hn.
  pose proof (below_64
    (λ n, match b64_value (b64_char n) with
          | Some m => m =? n
          | None => false
          end) ltac:(vm_compute; reflexivity) n Hn) as H.
  cbn beta in H. destruct (b64_value (b64_char n)) as [m|]; [|done].
  apply Nat.eqb_eq in H. by subst.
Qed.

Lemma b64_char_plain n :
  n < 64 → is_pad (b64_char n) = false ∧ is_ascii_whitespace (b64_char n) = false.
Proof.
  intros Hn.
  pose proof (below_64
    (λ n, negb (is_pad (b64_char n)) && negb (is_ascii_whitespace (b64_char n)))
    ltac:(vm_compute; reflexivity) n Hn) as H.
  cbn beta in H. apply andb_true_iff in H as [H1 H2].
  by rewrite negb_true_iff in H1, H2.
Qed.

Lemma strip_padding_core (xs : list Ascii.ascii) k :
  Forall (λ c, is_pad c = false) xs → k ≤ 2 →
  strip_padding (xs ++ replicate k b64_pad) = xs.
Proof.
  intros Hxs Hk. induction Hxs as [|a xs Ha Hxs IH].
  - destruct k as [|[|[|k]]]; [done..|lia].
  - cbn [app]. destruct xs as [|b xs].
    + cbn [app]. destruct k as [|[|[|k]]]; [| | |lia].
      * cbn. by rewrite Ha.
      * cbn. by rewrite Ha.
      * cbn. cbn in IH. by rewrite IH.
    + apply Forall_cons in Hxs as [Hb Hxs]. destruct xs as [|c xs].
      * destruct k as [|[|[|k]]]; [| | |lia].
        -- cbn. by rewrite Hb.
        -- cbn in *. by rewrite IH.
        -- cbn in *. by rewrite IH.
      * cbn in *. by rewrite IH.
Qed.

Lemma sextet_arith x y z :
  x < 256 → y < 256 → z < 256 →
  x / 4 * 4 + (x mod 4 * 16 + y / 16) / 16 = x
  ∧ (x mod 4 * 16 + y / 16) mod 16 * 16 + (y mod 16 * 4 + z / 64) / 4 = y
  ∧ (y mod 16 * 4 + z / 64) mod 4 * 64 + z mod 64 = z
  ∧ x / 4 < 64 ∧ x mod 4 * 16 + y / 16 < 64
  ∧ y mod 16 * 4 + z / 64 < 64 ∧ z mod 64 < 64.
Proof. intros. divlia. Qed.

Lemma sextet_arith_tail x y :
  x < 256 → y < 256 →
  x / 4 * 4 + (x mod 4 * 16) / 16 = x
  ∧ (x mod 4 * 16 + y / 16) mod 16 * 16 + (y mod 16 * 4) / 4 = y
  ∧ x mod 4 * 16 < 64 ∧ y mod 16 * 4 < 64.
Proof. intros. divlia. Qed.

Lemma btoa_shape (binary : list Ascii.ascii) :
  ∃ k, btoa binary = (b64_char <$> b64_sextets binary) ++ replicate k b64_pad
       ∧ k ≤ 2
       ∧ (length (b64_sextets binary) + k) mod 4 = 0
       ∧ length (b64_sextets binary) mod 4 ≠ 1
       ∧ Forall (λ n, n < 64) (b64_sextets binary)
       ∧ b64_bytes (b64_sextets binary) = binary.
Proof.
  induction binary as [|a|a b|a b c l IH] using triple_ind.
  - exists 0. split; [done|]. split; [lia|]. split; [done|]. split; [cbn; lia|]. by split.
  - exists 2. pose proof (Ascii.nat_ascii_bounded a) as Ha.
    destruct (sextet_arith (Ascii.nat_of_ascii a) 0 0) as (E1 & _ & _ & B1 & B2 & _);
      [lia..|].
    destruct (sextet_arith_tail (Ascii.nat_of_ascii a) 0) as (E1' & _ & B2' & _);
      [lia..|].
    split; [reflexivity|]. split; [lia|]. split; [reflexivity|]. split; [cbn; lia|]. split.
    + repeat (apply Forall_cons; split; [done|]). apply Forall_nil_2.
    + cbn [b64_sextets b64_bytes]. by rewrite E1', Ascii.ascii_nat_embedding.
  - exists 1. pose proof (Ascii.nat_ascii_bounded a) as Ha.
    pose proof (Ascii.nat_ascii_bounded b) as Hb.
    destruct (sextet_arith (Ascii.nat_of_ascii a) (Ascii.nat_of_ascii b) 0)
      as (E1 & _ & _ & B1 & B2 & _); [lia..|].
    destruct (sextet_arith_tail (Ascii.nat_of_ascii a) (Ascii.nat_of_ascii b))
      as (_ & E2 & _ & B3); [lia..|].
    split; [reflexivity|]. split; [lia|]. split; [reflexivity|]. split; [cbn; lia|]. split.
    + repeat (apply Forall_cons; split; [done|]). apply Forall_nil_2.
    + cbn [b64_sextets b64_bytes]. by rewrite E1, E2, !Ascii.ascii_nat_embedding.
  - destruct IH as (k & Hb & Hk & Hmod & Hne & Hlt & Hrt).
    exists k. pose proof (Ascii.nat_ascii_bounded a) as Ha.
    pose proof (Ascii.nat_ascii_bounded b) as Hb'.
    pose proof (Ascii.nat_ascii_bounded c) as Hc.
    destruct (sextet_arith (Ascii.nat_of_ascii a) (Ascii.nat_of_ascii b) (Ascii.nat_of_ascii c))
      as (E1 & E2 & E3 & B1 & B2 & B3 & B4); [lia..|].
    cbn [btoa b64_sextets b64_bytes fmap list_fmap app length].
    split; [by rewrite Hb|]. split; [done|].
    split; [divlia|]. split; [divlia|]. split.
    + repeat (apply Forall_cons; split; [done|]). done.
    + by rewrite E1, E2, E3, !Ascii.ascii_nat_embedding, Hrt.
Qed.

Lemma filter_keeps_all {A} (P : A → Prop) `{∀ x, Decision (P x)} (l : list A) :
  Forall P l → filter P l = l.
Proof.
  induction 1 as [|x l Hx Hl IH]; [done|].
  by rewrite filter_cons_True, IH.
Qed.

Lemma atob_btoa (binary : list Ascii.ascii) : atob (btoa binary) = Some binary.
Proof.
  destruct (btoa_shape binary) as (k & Hshape & Hk & Hmod & Hne & Hlt & Hrt).
  assert (Forall (λ c, is_pad c = false) (b64_char <$> b64_sextets binary))
    as Hplain.
  { apply Forall_fmap. eapply Forall_impl; [exact Hlt|].
    intros n Hn. apply (b64_char_plain n Hn). }
  unfold atob. rewrite filter_keeps_all.
  2:{ rewrite Hshape. apply Forall_app. split.
      - apply Forall_fmap. eapply Forall_impl; [exact Hlt|].
        intros n Hn. apply (b64_char_plain n Hn).
      - apply Forall_replicate. reflexivity. }
  rewrite Hshape, length_app, length_fmap, length_replicate, Hmod.
  cbn [Nat.eqb]. rewrite strip_padding_core, length_fmap by done.
  destruct (Nat.eqb_spec (length (b64_sextets binary) mod 4) 1) as [He|_];
    [done|].
  rewrite (mapM_fmap_Forall_Some b64_value b64_char).
  2:{ eapply Forall_impl; [exact Hlt|]. intros n Hn. by apply b64_value_char. }
  cbn. by rewrite Hrt.
Qed.

Lemma btoa_length (binary : list Ascii.ascii) :
  length (btoa binary) = 4 * ((length binary + 2) / 3).
Proof.
  induction binary as [|a|a b|a b c l IH] using triple_ind; [done..|].
  cbn [btoa length]. rewrite IH. divlia.
Qed.

(** X1.  [encodeBase64] and [decodeBase64] are inverse on every byte
    array: decoding the encoded text gives the bytes back; the text has
    4 * ceil(n / 3) characters for n bytes, all of them from the base64
    alphabet or the padding sign. *)
Theorem base64_framing_round_trip (bytes : list Byte.byte) :
  decodeBase64 (encodeBase64 bytes) = Some bytes
  ∧ length (encodeBase64 bytes) = 4 * ((length bytes + 2) / 3)
  ∧ Forall (λ c, is_Some (b64_value c) ∨ c = b64_pad) (encodeBase64 bytes).
Proof.
  unfold decodeBase64, encodeBase64. rewrite atob_btoa. split; [|split].
  - f_equal. rewrite <- list_fmap_compose. rewrite <- (list_fmap_id bytes) at 2.
    apply list_fmap_ext. intros i b _. apply Ascii.byte_of_ascii_of_byte.
  - by rewrite btoa_length, length_fmap.
  - destruct (btoa_shape (Ascii.ascii_of_byte <$> bytes))
      as (k & -> & _ & _ & _ & Hlt & _).
    apply Forall_app. split.
    + apply Forall_fmap. eapply Forall_impl; [exact Hlt|].
      intros n Hn. left. change (is_Some (b64_value (b64_char n))). by rewrite b64_value_char.
    + apply Forall_replicate. by right.
Qed.

Example base64_of_three_bytes :
  encodeBase64 [Byte.x4d; Byte.x61; Byte.x6e]
  = [Ascii.ascii_of_byte Byte.x54; Ascii.ascii_of_byte Byte.x57;
     Ascii.ascii_of_byte Byte.x46; Ascii.ascii_of_byte Byte.x75].
Proof. vm_compute. reflexivity. Qed.

End Framing.


(* ===================================================================== *)
(** * More on the assessment store                                       *)
(* ===================================================================== *)

Section StoreInvariants.

Implicit Types (args : gmap string json) (prev st : SessionState).
Implicit Types (now start : Z) (k f : string).

Lemma update_keeps_dimension now start args prev k :
  is_Some (dimensions prev !! k) →
  is_Some (dimensions (updateAssessmentState now start args prev) !! k).
Proof.
  intros Hk. cbn [updateAssessmentState dimensions].
  rewrite lookup_merge_dimensions. by destruct (patch_dimension args k).
Qed.

Lemma update_keeps_field now start args prev k f :
  is_Some (dimensions prev !! k ≫= (.!! f)) →
  is_Some (dimensions (updateAssessmentState now start args prev) !! k ≫= (.!! f)).
Proof.
  intros Hf. cbn [updateAssessmentState dimensions].
  rewrite lookup_merge_dimensions.
  destruct (patch_dimension args k) as [e|]; [|done].
  cbn [mbind option_bind]. rewrite lookup_union_field.
  destruct (own_props e !! f); [done|].
  by destruct (dimensions prev !! k).
Qed.

(** X5.  The store only grows: over any sequence of patches a dimension
    that is stored stays stored, and so does each of its fields; the
    number of dimensions never goes down, and a session started from
    [INITIAL_SESSION_STATE] always holds at least the five dimensions,
    whatever the patches contain. *)
Theorem dimensions_are_never_removed start patches st :
  let st' := apply_patches start patches st in
  (∀ k, is_Some (dimensions st !! k) → is_Some (dimensions st' !! k))
  ∧ (∀ k f, is_Some (dimensions st !! k ≫= (.!! f)) →
            is_Some (dimensions st' !! k ≫= (.!! f)))
  ∧ (size (dimensions st) ≤ size (dimensions st'))%nat
  ∧ (5 ≤ size (dimensions (apply_patches start patches INITIAL_SESSION_STATE)))%nat.
Proof.
  cbn zeta.
  assert (∀ st, (∀ k, is_Some (dimensions st !! k) →
                      is_Some (dimensions (apply_patches start patches st) !! k))
                ∧ (∀ k f, is_Some (dimensions st !! k ≫= (.!! f)) →
                      is_Some (dimensions (apply_patches start patches st) !! k
                                 ≫= (.!! f)))) as Hkeep.
  { induction patches as [|p ps IH]; intros s; [done|].
    unfold apply_patches in *. cbn [foldl].
    destruct (IH (updateAssessmentState p.1 start p.2 s)) as [IHk IHf].
    split.
    - intros k Hk. by apply IHk, update_keeps_dimension.
    - intros k f Hf. by apply IHf, update_keeps_field. }
  assert (∀ st, (size (dimensions st)
                 ≤ size (dimensions (apply_patches start patches st)))%nat) as Hsize.
  { intros s. rewrite <- !size_dom. apply subseteq_size.
    intros k Hk. apply elem_of_dom. apply (Hkeep s), elem_of_dom, Hk. }
  split; [apply Hkeep|]. split; [apply Hkeep|]. split; [apply Hsize|].
  etrans; [|apply Hsize]. vm_compute. lia.
Qed.

Lemma union_absorb (e old : gmap string json) : e ∪ (e ∪ old) = e ∪ old.
Proof. by rewrite (assoc_L (∪)), (idemp_L (∪)). Qed.

Lemma or_prev_idemp a b : or_prev a (or_prev a b) = or_prev a b.
Proof.
  unfold or_prev, js_or. destruct (truthy_opt a) eqn:Ha; [|by rewrite ?Ha].
  by destruct a.
Qed.

Lemma js_or_idemp a b : js_or a (js_or a b) = js_or a b.
Proof. unfold js_or. by destruct (truthy_opt a). Qed.

(** X6.  A patch delivered a second time changes nothing but the
    history: dimensions, phase, strengths, priorities and summary are the
    same after the second application as after the first, while the
    score history gets one more point. *)
Theorem redelivered_patch_changes_no_field now1 now2 start args prev :
  let once := updateAssessmentState now1 start args prev in
  let twice := updateAssessmentState now2 start args once in
  dimensions twice = dimensions once
  ∧ conversationPhase twice = conversationPhase once
  ∧ strengths twice = strengths once
  ∧ developmentPriorities twice = developmentPriorities once
  ∧ summary twice = summary once
  ∧ length (scoreHistory twice) = S (length (scoreHistory once)).
Proof.
  cbn zeta. split.
  { apply map_eq. intros k. cbn [updateAssessmentState dimensions].
    rewrite !lookup_merge_dimensions.
    destruct (patch_dimension args k) as [e|]; [|done].
    cbn [default from_option id]. by rewrite union_absorb. }
  cbn [updateAssessmentState conversationPhase strengths developmentPriorities
       summary scoreHistory].
  rewrite !or_prev_idemp, js_or_idemp, length_app. cbn. repeat split. lia.
Qed.

(** The logs are not idempotent: a redelivered evidence item is logged
    again. *)
Example redelivered_evidence_is_logged_twice :
  let once := updateAssessmentState 5000 0 evidence_patch INITIAL_SESSION_STATE in
  let twice := updateAssessmentState 6000 0 evidence_patch once in
  length (evidenceLog once) = 1%nat ∧ length (evidenceLog twice) = 2%nat.
Proof. split; vm_compute; reflexivity. Qed.

(** X7.  Two patches that never write the same field of the same
    dimension can be applied in either order: the stored dimensions are
    the same. *)
Theorem patches_on_disjoint_fields_commute now1 now2 start args1 args2 prev :
  (∀ k e1 e2, patch_dimension args1 k = Some e1 →
              patch_dimension args2 k = Some e2 →
              own_props e1 ##ₘ own_props e2) →
  dimensions (updateAssessmentState now2 start args2
                (updateAssessmentState now1 start args1 prev))
  = dimensions (updateAssessmentState now1 start args1
                  (updateAssessmentState now2 start args2 prev)).
Proof.
  intros Hdisj. apply map_eq. intros k.
  cbn [updateAssessmentState dimensions]. rewrite !lookup_merge_dimensions.
  destruct (patch_dimension args1 k) as [e1|] eqn:H1,
           (patch_dimension args2 k) as [e2|] eqn:H2; try done.
  cbn [default from_option id]. f_equal.
  rewrite !(assoc_L (∪)). f_equal.
  apply map_union_comm. symmetry. by eapply Hdisj.
Qed.

Lemma patches_on_disjoint_fields_commute_witness :
  (∀ k e1 e2, patch_dimension scenario_patch k = Some e1 →
              patch_dimension all_HIGH_patch k = Some e2 →
              own_props e1 ##ₘ own_props e2)
  ∧ dimensions (updateAssessmentState 2000 0 all_HIGH_patch
                  (updateAssessmentState 1000 0 scenario_patch
                     INITIAL_SESSION_STATE))
    = dimensions (updateAssessmentState 1000 0 scenario_patch
                    (updateAssessmentState 2000 0 all_HIGH_patch
                       INITIAL_SESSION_STATE)).
Proof.
  assert (∀ k e1 e2, patch_dimension scenario_patch k = Some e1 →
                     patch_dimension all_HIGH_patch k = Some e2 →
                     own_props e1 ##ₘ own_props e2) as Hdisj.
  { intros k e1 e2 H1 H2.
    assert (scenario_patch !! "dimensions"
            = Some (JObj {[ "DT" := JObj {[ "score" := JNum (42 # 10) ]} ]}))
      as Hd by (vm_compute; reflexivity).
    unfold patch_dimension in H1. rewrite Hd in H1.
    cbn [mbind option_bind truthy own_props] in H1.
    destruct (decide (k = "DT")) as [->|Hk].
    - assert (e1 = JObj {[ "score" := JNum (42 # 10) ]}) as ->.
      { vm_compute in H1. by injection H1 as <-. }
      assert (e2 = JObj {[ "confidence" := JStr "HIGH" ]}) as ->.
      { vm_compute in H2. by injection H2 as <-. }
      cbn [own_props]. apply map_disjoint_singleton_l.
      vm_compute. reflexivity.
    - by rewrite lookup_singleton_ne in H1. }
  split; [exact Hdisj|].
  exact (patches_on_disjoint_fields_commute 1000 2000 0 scenario_patch
           all_HIGH_patch INITIAL_SESSION_STATE Hdisj).
Defined.

(** Patches that write the same field do not commute: the later one
    wins. *)
Example patches_on_one_field_do_not_commute :
  let a : gmap string json :=
    {[ "dimensions" := JObj {[ "DT" := JObj {[ "score" := JNum 1 ]} ]} ]} in
  let b : gmap string json :=
    {[ "dimensions" := JObj {[ "DT" := JObj {[ "score" := JNum 2 ]} ]} ]} in
  dimensions (updateAssessmentState 2 0 b
                (updateAssessmentState 1 0 a INITIAL_SESSION_STATE))
  ≠ dimensions (updateAssessmentState 1 0 a
                  (updateAssessmentState 2 0 b INITIAL_SESSION_STATE)).
Proof.
  cbn zeta. intros Heq.
  apply (f_equal (λ m, m !! "DT" ≫= (.!! "score"))) in Heq.
  vm_compute in Heq. discriminate.
Qed.

End StoreInvariants.


(* ===================================================================== *)
(** * Session limits and the end of a session                            *)
(* ===================================================================== *)

Section SessionLimits.

Lemma minutes_at_least (n ms : Z) :
  0 < n → Qle_bool (n # 1) (inject_Z ms / 60000) = true ↔ n * 60000 ≤ ms.
Proof.
  intros Hn. rewrite Qle_bool_iff. unfold Qle; cbn. lia.
Qed.

Lemma minutes_at_least_false (n ms : Z) :
  0 < n → Qle_bool (n # 1) (inject_Z ms / 60000) = false ↔ ms < n * 60000.
Proof.
  intros Hn. rewrite <- not_true_iff_false, (minutes_at_least n ms Hn). lia.
Qed.

(** X11.  The hard limit: a tick of the monitor on a connected, running
    session that is 20 minutes old or more pauses it, opens the e-mail
    dialogue and shows the time-out message; it leaves the connection
    state, the early-exit button and the assessment as they are, and
    every later tick leaves the session as it then is. *)
Theorem hard_timeout_ends_the_session now start ui :
  connectionState ui = CONNECTED → isPaused ui = false →
  1200000 ≤ now - start →
  let ui' := monitor_tick now start ui in
  isPaused ui' = true
  ∧ showEmailModal ui' = true
  ∧ errorMsg ui'
    = Some "Maximum session time reached (20 mins). Please finalize your report."
  ∧ connectionState ui' = CONNECTED
  ∧ showEarlyExitButton ui' = showEarlyExitButton ui
  ∧ sessionState ui' = sessionState ui
  ∧ ∀ now', monitor_tick now' start ui' = ui'.
Proof.
  intros Hc Hp Ht. cbn zeta.
  assert (monitor_tick now start ui =
            setErrorMsg "Maximum session time reached (20 mins). Please finalize your report."
              (handleDisconnectBtn ui)) as ->.
  { unfold monitor_tick. rewrite Hc, Hp. cbn [is_connected negb andb].
    by rewrite (proj2 (minutes_at_least 20 (now - start) ltac:(lia))) by lia. }
  unfold setErrorMsg, handleDisconnectBtn. rewrite Hp. cbn.
  split; [done|]. split; [done|]. split; [done|]. split; [done|].
  split; [done|]. split; [done|].
  intros now'. unfold monitor_tick. cbn. by rewrite andb_false_r.
Qed.

Lemma hard_timeout_ends_the_session_witness :
  connectionState confident_ui = CONNECTED
  ∧ isPaused confident_ui = false
  ∧ 1200000 ≤ 1200000 - 0
  ∧ isPaused (monitor_tick 1200000 0 confident_ui) = true
  ∧ showEmailModal (monitor_tick 1200000 0 confident_ui) = true.
Proof.
  split; [reflexivity|]. split; [reflexivity|]. split; [lia|].
  destruct (hard_timeout_ends_the_session 1200000 0 confident_ui
              eq_refl eq_refl ltac:(lia)) as (Hp & Hm & _).
  split; [exact Hp|exact Hm].
Defined.

(** X12.  A tick does nothing on a session younger than 5 minutes, on a
    paused session and on a session that is not connected; before 20
    minutes the most it does is to show the early-exit button. *)
Theorem tick_before_the_thresholds now start ui :
  (now - start < 300000 → monitor_tick now start ui = ui)
  ∧ (now - start < 1200000 →
     monitor_tick now start ui = ui
     ∨ monitor_tick now start ui = setShowEarlyExitButton true ui)
  ∧ (isPaused ui = true → monitor_tick now start ui = ui)
  ∧ (connectionState ui ≠ CONNECTED → monitor_tick now start ui = ui).
Proof.
  unfold monitor_tick. repeat split.
  - intros Ht. destruct (is_connected _ && negb _); [|done].
    rewrite (proj2 (minutes_at_least_false 20 (now - start) ltac:(lia))) by lia.
    by rewrite (proj2 (minutes_at_least_false 5 (now - start) ltac:(lia))) by lia.
  - intros Ht. destruct (is_connected _ && negb _); [|by left].
    rewrite (proj2 (minutes_at_least_false 20 (now - start) ltac:(lia))) by lia.
    destruct (Qle_bool 5 _); [|by left].
    destruct (allHigh _); [by right|by left].
  - intros ->. by rewrite andb_false_r.
  - intros Hc. by destruct (connectionState ui).
Qed.

(** X10.  A patch with a truthy [isComplete] ends the session for good:
    the state becomes COMPLETE, the patch itself is still merged, the
    close of the socket that follows does not turn COMPLETE into
    DISCONNECTED and no tick of the monitor changes the session
    afterwards.  A patch without it leaves the connection state alone.
    The close handler also keeps ERROR, turns every other state into
    DISCONNECTED and is idempotent. *)
Theorem completion_survives_the_close now start args ui :
  (truthy_opt (args !! "isComplete") = true →
     let ui' := ws_onclose (on_update_assessment now start args ui) in
     connectionState ui' = COMPLETE
     ∧ sessionState ui'
       = updateAssessmentState now start args (sessionState ui)
     ∧ ∀ now', monitor_tick now' start ui' = ui')
  ∧ (truthy_opt (args !! "isComplete") = false →
     connectionState (on_update_assessment now start args ui)
     = connectionState ui)
  ∧ connectionState (ws_onclose (ws_onerror ui)) = ERROR
  ∧ (connectionState ui ≠ ERROR → connectionState ui ≠ COMPLETE →
     connectionState (ws_onclose ui) = DISCONNECTED)
  ∧ ws_onclose (ws_onclose ui) = ws_onclose ui.
Proof.
  split; [|split; [|split; [|split]]].
  - intros Hdone. cbn zeta. split; [|split].
    + cbn. by rewrite Hdone.
    + done.
    + intros now'. unfold monitor_tick. cbn. by rewrite Hdone.
  - intros Hnot. cbn. by rewrite Hnot.
  - done.
  - intros He Hc. cbn. by destruct (connectionState ui).
  - unfold ws_onclose. cbn. by destruct (connectionState ui).
Qed.

End SessionLimits.


Section ScoreTimeline.

Implicit Types (st : SessionState) (start : Z).

Lemma apply_patches_history start patches st :
  ∃ new, scoreHistory (apply_patches start patches st) = scoreHistory st ++ new
         ∧ time <$> new = (λ p, (p.1 - start) `div` 1000) <$> patches.
Proof.
  revert st. induction patches as [|p ps IH]; intros st.
  - exists []. by rewrite app_nil_r.
  - unfold apply_patches in *. cbn [foldl].
    destruct (IH (updateAssessmentState p.1 start p.2 st)) as (new & Hh & Ht).
    cbn [updateAssessmentState scoreHistory] in Hh.
    rewrite <- app_assoc in Hh. eexists. split; [exact Hh|].
    cbn. by rewrite Ht.
Qed.

(** X8.  The time axis of the score history: the points appended by a
    sequence of patches carry, in order, the whole seconds between the
    start of the session and the arrival of each patch; no time is
    negative when the clock does not run behind the start, and the times
    are in the order of the arrivals. *)
Theorem timeline_follows_the_clock start
    (patches : list (Z * gmap string json)) st :
  let new := drop (length (scoreHistory st))
                  (scoreHistory (apply_patches start patches st)) in
  time <$> new = (λ p, (p.1 - start) `div` 1000) <$> patches
  ∧ (∀ i p a, patches !! i = Some p → new !! i = Some a →
        start ≤ p.1 → 0 ≤ time a)
  ∧ (∀ i j p q a b, patches !! i = Some p → patches !! j = Some q →
        new !! i = Some a → new !! j = Some b →
        p.1 ≤ q.1 → time a ≤ time b).
Proof.
  cbn zeta. destruct (apply_patches_history start patches st) as (new & -> & Ht).
  rewrite drop_app_length. split; [done|].
  assert (∀ i p a, patches !! i = Some p → new !! i = Some a →
            time a = (p.1 - start) `div` 1000) as Hat.
  { intros i p a Hp Ha.
    assert ((time <$> new) !! i = Some (time a)) as H1
      by (by rewrite list_lookup_fmap, Ha).
    rewrite Ht, list_lookup_fmap, Hp in H1. by simplify_eq/=. }
  split.
  - intros i p a Hp Ha Hle. rewrite (Hat i p a Hp Ha).
    apply Z.div_pos; lia.
  - intros i j p q a b Hp Hq Ha Hb Hle.
    rewrite (Hat i p a Hp Ha), (Hat j q b Hq Hb).
    apply Z.div_le_mono; lia.
Qed.

End ScoreTimeline.


(* ===================================================================== *)
(** * The microphone gate                                                *)
(* ===================================================================== *)

Section Capture.

Implicit Types (st : Playback).




(** X14.  The cool-down: when the end-of-speech timer fires at time [t]
    the flag is lowered, yet every microphone block is dropped until
    [t + 500] ms; from then on a block captured on an open, unmuted,
    running session is sent as base64 text of its 16-bit PCM, two bytes
    per sample. *)
Theorem cooldown_after_playback t now wsOpen inputData st :
  let st' := on_timer t st in
  (now < t + 500 →
     ∀ isMuted isPaused,
       onaudioprocess now isMuted isPaused wsOpen inputData st' = None)
  ∧ (t + 500 ≤ now →
     onaudioprocess now false false true inputData st'
       = Some (encodeBase64 (int16_bytes (float32ToInt16 inputData)))
     ∧ length (int16_bytes (float32ToInt16 inputData))
       = (2 * length inputData)%nat).
Proof.
  cbn zeta. unfold onaudioprocess, on_timer. cbn. split.
  - intros Hlt m p. destruct (m || p || false); [done|].
    destruct (Z.ltb_spec (now - t) 500); [done|lia].
  - intros Hge. destruct (Z.ltb_spec (now - t) 500); [lia|].
    split; [done|]. rewrite length_int16_bytes. unfold float32ToInt16.
    by rewrite length_fmap.
Qed.

(** X15.  Barge-in and the cool-down.  Right after a barge-in the
    microphone is open again (the handler resets the end-of-speech time
    to 0).  But the sources it stopped still report their end: when the
    end of a stopped source is delivered, the set being empty, the
    end-of-speech timer is armed, and when it fires at time [t] the
    microphone is gated again until [t + 500] ms. *)
Theorem stopped_source_rearms_the_cooldown st s t :
  reachable st → s ∈ sources st →
  (∀ now inputData, 500 ≤ now →
     onaudioprocess now false false true inputData (bargeIn st)
     = Some (encodeBase64 (int16_bytes (float32ToInt16 inputData))))
  ∧ ∃ st', run [SpeechStarted; Ended s; TimerFired t] st = Some st'
           ∧ sources st' = ∅
           ∧ lastAiSpeechEndTime st' = t
           ∧ ∀ now isMuted isPaused wsOpen inputData, now < t + 500 →
               onaudioprocess now isMuted isPaused wsOpen inputData st' = None.
Proof.
  intros Hr Hs. destruct (reachable_inv st Hr) as (_ & Hsub & _). split.
  { intros now input Hnow. unfold onaudioprocess, bargeIn. cbn.
    destruct (Z.ltb_spec (now - 0) 500); [lia|done]. }
  cbn [run dispatch mbind option_bind].
  assert (s ∈ unended (bargeIn st)) as Hun by (cbn; set_solver).
  rewrite (decide_True _ _ Hun). cbn [mbind option_bind].
  assert (timers (on_ended s (bargeIn st)) = S (timers st)) as Ht.
  { cbn. assert ((∅ : gset nat) ∖ {[s]} = ∅) as -> by set_solver.
    by rewrite size_empty. }
  rewrite Ht. cbn [mbind option_bind]. eexists. split; [done|].
  split; [cbn; set_solver|]. split; [done|].
  intros now m p o input Hnow. unfold onaudioprocess. cbn.
  destruct (m || p || false); [done|].
  destruct (Z.ltb_spec (now - t) 500); [done|lia].
Qed.

Lemma stopped_source_rearms_the_cooldown_witness :
  reachable playing
  ∧ 0%nat ∈ sources playing
  ∧ ∃ st', run [SpeechStarted; Ended 0%nat; TimerFired 1000] playing = Some st'
           ∧ lastAiSpeechEndTime st' = 1000
           ∧ onaudioprocess 1200 false false true [1%Q] st' = None.
Proof.
  assert (reachable playing) as Hr.
  { exists [AudioDelta tiny_frame 0%Q]. vm_compute. reflexivity. }
  assert (0%nat ∈ sources playing) as Hs.
  { apply (bool_decide_unpack (0%nat ∈ sources playing)). vm_compute. exact I. }
  split; [exact Hr|]. split; [exact Hs|].
  destruct (stopped_source_rearms_the_cooldown playing 0%nat 1000 Hr Hs)
    as (_ & st' & Hrun & _ & Ht & Hgate).
  exists st'. split; [exact Hrun|]. split; [exact Ht|].
  apply Hgate. lia.
Defined.

End Capture.


(* ===================================================================== *)
(** * The end of playback                                                *)
(* ===================================================================== *)

Section Draining.

Implicit Types (st : Playback).

Lemma run_ended_list (l : list nat) st :
  NoDup l → (∀ s, s ∈ l → s ∈ unended st) →
  ∃ st', run (Ended <$> l) st = Some st'
         ∧ sources st' = sources st ∖ list_to_set l
         ∧ unended st' = unended st ∖ list_to_set l
         ∧ isAiSpeaking st' = isAiSpeaking st
         ∧ scheduled st' = scheduled st.
Proof.
  intros Hnd. revert st. induction Hnd as [|s l Hnotin Hnd IH]; intros st Hin.
  - exists st. cbn. repeat split; set_solver.
  - cbn [fmap list_fmap run dispatch].
    rewrite decide_True by (apply Hin; by left). cbn [mbind option_bind].
    destruct (IH (on_ended s st)) as (st' & Hrun & Hs & Hu & Hf & Hsch).
    { intros x Hx. cbn. apply elem_of_difference. split.
      - apply Hin. by right.
      - rewrite elem_of_singleton. by intros ->. }
    exists st'. split; [done|]. cbn in Hs, Hu, Hf, Hsch.
    rewrite Hs, Hu. cbn. repeat split; [set_solver..|done|done].
Qed.

(** X16.  Playback drains: from every reachable state, once each source
    that is still to end has ended, the set of active sources is empty;
    if the flag is still up then a timer is pending, and when it fires
    the flag is lowered and the end-of-speech time recorded. *)
Theorem playback_drains st :
  reachable st →
  ∃ st', run (Ended <$> elements (unended st)) st = Some st'
         ∧ sources st' = ∅
         ∧ unended st' = ∅
         ∧ (isAiSpeaking st' = true →
            ∀ now, ∃ st'', dispatch (TimerFired now) st' = Some st''
                           ∧ isAiSpeaking st'' = false
                           ∧ sources st'' = ∅
                           ∧ lastAiSpeechEndTime st'' = now).
Proof.
  intros Hr. pose proof (reachable_inv st Hr) as Hinv.
  destruct (run_ended_list (elements (unended st)) st) as
    (st' & Hrun & Hs & Hu & Hf & _).
  { apply NoDup_elements. }
  { intros s. by rewrite elem_of_elements. }
  rewrite list_to_set_elements_L in Hs, Hu.
  destruct Hinv as (Hsp & Hsub & Hlt).
  assert (sources st' = ∅) as Hempty by set_solver.
  exists st'. split; [done|]. split; [done|]. split; [set_solver|].
  intros Hup now.
  destruct (run_inv _ _ _ (conj Hsp (conj Hsub Hlt)) Hrun) as (Hsp' & _).
  destruct (Hsp' Hup) as [Hne|Htimers]; [done|].
  cbn. destruct (timers st') as [|n]; [lia|].
  eexists. split; [done|]. by repeat split.
Qed.

Lemma playback_drains_witness :
  reachable playing
  ∧ ∃ st', run (Ended <$> elements (unended playing)) playing = Some st'
           ∧ sources st' = ∅.
Proof.
  assert (reachable playing) as Hr.
  { exists [AudioDelta tiny_frame 0%Q]. vm_compute. reflexivity. }
  split; [exact Hr|].
  destruct (playback_drains playing Hr) as (st' & Hrun & Hs & _).
  exists st'. by split.
Defined.

End Draining.


(* ===================================================================== *)
(** * Cleaning of the function-call arguments                            *)
(* ===================================================================== *)

Section Cleaning.

Lemma ascii_eqb_refl (a : Ascii.ascii) : Ascii.eqb a a = true.
Proof. by apply Ascii.eqb_eq. Qed.

Lemma strip_prefix_app p s : strip_prefix p (p ++ s) = Some s.
Proof.
  induction p as [|a p IH]; [done|]. cbn. by rewrite ascii_eqb_refl.
Qed.

Lemma strip_prefix_mismatch a p b s :
  a ≠ b → strip_prefix (a :: p) (b :: s) = None.
Proof.
  intros Hne. cbn. destruct (Ascii.eqb a b) eqn:He; [|done].
  by apply Ascii.eqb_eq in He.
Qed.

Lemma strip_prefix_app_both p q s :
  strip_prefix (p ++ q) (p ++ s) = strip_prefix q s.
Proof.
  induction p as [|a p IH]; [done|]. cbn. by rewrite ascii_eqb_refl.
Qed.

Lemma skip_spaces_app ws s :
  Forall (λ c, is_js_space c = true) ws →
  skip_spaces (ws ++ s) = skip_spaces s.
Proof.
  induction 1 as [|c ws Hc Hws IH]; [done|]. cbn. by rewrite Hc.
Qed.

Lemma skip_spaces_stops c s :
  is_js_space c = false → skip_spaces (c :: s) = c :: s.
Proof. intros Hc. cbn. by rewrite Hc. Qed.


(** X9.  The arguments of a function call are unwrapped from a Markdown
    code fence: a JSON object text, from its opening to its closing
    brace, comes out unchanged whether it is wrapped in a fence marked
    json, in a bare fence, in a fence that is not closed, followed by a
    closing fence only, or not wrapped at all; the white space between
    the fences and the object is dropped. *)
Theorem fenced_arguments_are_unwrapped (inner ws1 ws2 : list Ascii.ascii) :
  Forall (λ c, is_js_space c = true) ws1 →
  Forall (λ c, is_js_space c = true) ws2 →
  let body := open_brace :: inner ++ [close_brace] in
  cleanArgs (fence_json ++ ws1 ++ body ++ ws2 ++ fence) = body
  ∧ cleanArgs (fence ++ ws1 ++ body ++ ws2 ++ fence) = body
  ∧ cleanArgs (fence_json ++ ws1 ++ body) = body
  ∧ cleanArgs (body ++ ws2 ++ fence) = body
  ∧ cleanArgs body = body.
Proof.
  intros Hws1 Hws2 body.
  assert (∀ rest, skip_spaces (ws1 ++ body ++ rest) = body ++ rest) as Hlead.
  { intros rest. rewrite skip_spaces_app by done. by apply skip_spaces_stops. }
  assert (∀ rest, strip_leading fence_json (body ++ rest) = body ++ rest) as Hj.
  { intros rest. unfold strip_leading, fence_json, fence, body. cbn [app].
    by rewrite strip_prefix_mismatch. }
  assert (∀ rest, strip_leading fence (body ++ rest) = body ++ rest) as Hf.
  { intros rest. unfold strip_leading, fence, body. cbn [app].
    by rewrite strip_prefix_mismatch. }
  assert (reverse body = close_brace :: reverse inner ++ [open_brace]) as Hrev.
  { unfold body. by rewrite reverse_cons, reverse_app. }
  assert (strip_trailing_fence (body ++ ws2 ++ fence) = body) as Hclose.
  { unfold strip_trailing_fence.
    rewrite !reverse_app, <- app_assoc, strip_prefix_app.
    rewrite skip_spaces_app by (by apply Forall_reverse).
    rewrite Hrev, skip_spaces_stops by done.
    by rewrite <- Hrev, reverse_involutive. }
  assert (strip_trailing_fence body = body) as Hnone.
  { unfold strip_trailing_fence. rewrite Hrev.
    change (reverse fence) with fence. unfold fence.
    by rewrite strip_prefix_mismatch. }
  assert (∀ rest, strip_leading fence_json (fence_json ++ ws1 ++ body ++ rest)
                  = body ++ rest) as Hopen.
  { intros rest. unfold strip_leading. by rewrite strip_prefix_app, Hlead. }
  assert (∀ rest, strip_leading fence
                    (strip_leading fence_json (fence ++ ws1 ++ body ++ rest))
                  = body ++ rest) as Hbare.
  { intros rest.
    assert (strip_leading fence_json (fence ++ ws1 ++ body ++ rest)
            = fence ++ ws1 ++ body ++ rest) as ->.
    { unfold strip_leading, fence_json. rewrite strip_prefix_app_both.
      destruct ws1 as [|w ws1'].
      - unfold body. cbn [app String.list_ascii_of_string].
        by rewrite strip_prefix_mismatch.
      - cbn [app String.list_ascii_of_string].
        apply Forall_cons in Hws1 as [Hw _].
        rewrite strip_prefix_mismatch; [done|]. by intros <-. }
    unfold strip_leading. by rewrite strip_prefix_app, Hlead. }
  unfold cleanArgs. repeat split.
  - by rewrite Hopen, Hf, Hclose.
  - by rewrite Hbare, Hclose.
  - rewrite <- (app_nil_r body) at 1. rewrite Hopen, Hf, app_nil_r. exact Hnone.
  - by rewrite Hj, Hf, Hclose.
  - rewrite <- (app_nil_r body) at 1. rewrite Hj, Hf, app_nil_r. exact Hnone.
Qed.

Lemma fenced_arguments_are_unwrapped_witness :
  let nl := Ascii.ascii_of_nat 10 in
  Forall (λ c, is_js_space c = true) [nl]
  ∧ cleanArgs (fence_json ++ [nl] ++ [open_brace; close_brace] ++ [nl] ++ fence)
    = [open_brace; close_brace].
Proof.
  cbn zeta.
  assert (Forall (λ c, is_js_space c = true) [Ascii.ascii_of_nat 10]) as Hws.
  { apply Forall_cons. split; [reflexivity|apply Forall_nil_2]. }
  split; [exact Hws|].
  destruct (fenced_arguments_are_unwrapped [] [Ascii.ascii_of_nat 10]
              [Ascii.ascii_of_nat 10] Hws Hws) as (Hjson & _).
  exact Hjson.
Defined.

End Cleaning.


(* ===================================================================== *)
(** * Release of the devices                                             *)
(* ===================================================================== *)

Section Release.

#[local] Instance release_eq_dec : EqDecision release.
Proof. solve_decision. Defined.

(** X17.  [disconnect] releases each resource it holds exactly once and
    none that it does not hold, and clears every ref but the socket's:
    a second [disconnect] touches no stream, audio context or node
    again, it only closes the socket once more. *)
Theorem disconnect_releases_once (d : Devices) :
  let calls := (disconnect_devices d).1 in
  let d' := (disconnect_devices d).2 in
  NoDup calls
  ∧ (∀ r, r ∈ calls ↔ held d r = true)
  ∧ (∀ r, r ≠ socket_close → held d' r = false)
  ∧ disconnect_devices d' = (if session d then [socket_close] else [], d').
Proof.
  cbn zeta. destruct d as [s0 s1 s2 s3 s4 s5]. split; [|split; [|split]].
  - destruct s0, s1, s2, s3, s4, s5;
      apply (bool_decide_unpack (NoDup _)); vm_compute; exact I.
  - intros r.
    destruct r, s0, s1, s2, s3, s4, s5; cbn;
      (split; [intros Hin; first [reflexivity | by set_solver]
              |intros Hh; first [discriminate | set_solver]]).
  - intros r Hr. by destruct r.
  - by destruct s0.
Qed.

End Release.
